(** * Tasks: cancellable one-shot asynchronous computations

    A shallow embedding of [lib/internal/task.js]: [Task.start] with its
    private [finish] and [setListener], the methods [cancel], [thenDo] and
    [finally], [Task.withValue], and the internal combinator [compose].

    Every task object is a cell of a store, indexed by its identity; the
    closure variables of [compose] form a second store of environments; the
    queue of [process.nextTick] is a list served first-in first-out.  A call
    that may raise a JavaScript exception lives in a state-and-exception
    monad.

    Functions handed in by the caller are described by what they do to the
    task interface.  A starter calls its two callbacks any number of times
    and then returns or throws; a call it makes later, from outside, is the
    operation [resolve] or [reject] applied to the store.  A continuation
    factory builds tasks with the interface and then returns one of them,
    returns nothing or throws.  Abort and cleanup functions of the caller
    are opaque and return: their calls are recorded in a trace. *)

From Stdlib Require Import ZArith String.
From stdpp Require Import base tactics option list.

Local Open Scope string_scope.
Local Open Scope list_scope.

(** ** JavaScript values *)

Inductive Val :=
| VUndefined
| VNull
| VNum (n : Z)
| VStr (s : string)
| VError (msg : string).

(** Tasks and [compose] environments are known by their position in the
    store. *)
Abbreviation TaskId := nat (only parsing).
Abbreviation EnvId := nat (only parsing).

(** The literal ['cancelled']. *)
Definition sentinel : Val := VStr "cancelled".

(** [v === 'cancelled'] *)
Definition is_sentinel (v : Val) : bool :=
  match v with
  | VStr s => String.eqb s "cancelled"
  | _ => false
  end.

(** [v == null]: loose equality holds for [null] and [undefined] only. *)
Definition is_nullish (v : Val) : bool :=
  match v with
  | VUndefined | VNull => true
  | _ => false
  end.

(** ** Caller-supplied code *)

(** How a call into caller code ends. *)
Inductive Ending (A : Type) :=
| Throws (e : Val)
| Returns (a : A).
Arguments Throws {A} e.
Arguments Returns {A} a.

(** A synchronous call, made by a starter, to one of its two callbacks. *)
Inductive Completion :=
| CallResolve (result : Val)
| CallReject (err : Val).

(** The value a starter returns, when it is a function: an abort function of
    the caller, known by its name, or [cancelCompositeTask] of a [compose]
    environment. *)
Inductive Abort :=
| UserAbort (name : nat)
| CancelComposite (c : EnvId).

(** [doSomething]: the synchronous calls a caller's starter makes to
    [resolve] and [reject], then how it ends (it throws, or returns an abort
    function or nothing); or the starter that [compose] passes. *)
Inductive Starter :=
| UserStarter (calls : list Completion) (ending : Ending (option nat))
| CompositeStarter (c : EnvId).

(** Caller programs that build a task, and the functions given to [thenDo]:
    a caller's factory (it throws, returns nothing or returns a task), or
    the [resolve] / [reject] callback of a task, which [compose] passes. *)
Inductive TaskExpr :=
| TStart (calls : list Completion) (ending : Ending (option nat))
| TRef (t : TaskId)
| TThenDo (e : TaskExpr) (onResolve onReject : option Factory)
| TFinally (e : TaskExpr) (cleanup : nat)
with Factory :=
| UserFn (name : nat) (body : Val -> Ending (option TaskExpr))
| ResolveOf (t : TaskId)
| RejectOf (t : TaskId).

(** ** The store *)

(** The [callback] given to [setListener]: the one of [compose], or the one
    of [finally]. *)
Inductive Listener :=
| ComposeListener (c : EnvId)
| FinallyListener (cleanup : nat).

(** A function handed to [process.nextTick]. *)
Inductive Deferred :=
| ComposeTick (c : EnvId) (firstErr firstResult : Val)
| Cleanup (name : nat).

(** A record of the calls that go out of the task code: to the listener of
    a task, to the abort function of a task, to a factory of the caller and
    to a cleanup function.  It is written and never read. *)
Inductive Obs :=
| ObsListener (t : TaskId) (err result : Val)
| ObsAbort (t : TaskId)
| ObsCall (name : nat) (arg : Val)
| ObsCleanup (name : nat).

(** The variables [finished], [onFinish] and [abort] of one [Task.start]. *)
Record Cell := mkCell {
  finished : option (Val * Val);
  onFinish : option Listener;
  abort : option Abort
}.

(** The variables of one [compose]; [compositeTask] stands for the pair
    [resolveCompositeTask], [rejectCompositeTask], the callbacks of that
    task. *)
Record Env := mkEnv {
  cancelled : bool;
  currentTask : option TaskId;
  onResolve : option Factory;
  onReject : option Factory;
  compositeTask : TaskId
}.

Record State := mkState {
  tasks : list Cell;
  envs : list Env;
  queue : list Deferred;
  trace : list Obs
}.

Definition initial : State := mkState [] [] [] [].

Definition upd_task (t : TaskId) (f : Cell -> Cell) (s : State) : State :=
  mkState (alter f t (tasks s)) (envs s) (queue s) (trace s).

Definition upd_env (c : EnvId) (f : Env -> Env) (s : State) : State :=
  mkState (tasks s) (alter f c (envs s)) (queue s) (trace s).

Definition log (o : Obs) (s : State) : State :=
  mkState (tasks s) (envs s) (queue s) (trace s ++ [o]).

(** [process.nextTick(d)] *)
Definition nextTick (d : Deferred) (s : State) : State :=
  mkState (tasks s) (envs s) (queue s ++ [d]) (trace s).

Definition set_finished (o : Val * Val) (k : Cell) : Cell :=
  mkCell (Some o) (onFinish k) (abort k).
Definition set_onFinish (l : Listener) (k : Cell) : Cell :=
  mkCell (finished k) (Some l) (abort k).
Definition set_abort (a : option Abort) (k : Cell) : Cell :=
  mkCell (finished k) (onFinish k) a.
Definition set_cancelled (e : Env) : Env :=
  mkEnv true (currentTask e) (onResolve e) (onReject e) (compositeTask e).
Definition set_currentTask (o : option TaskId) (e : Env) : Env :=
  mkEnv (cancelled e) o (onResolve e) (onReject e) (compositeTask e).

(** The outcome recorded for a task, if any. *)
Definition outcome (t : TaskId) (s : State) : option (Val * Val) :=
  k ← tasks s !! t; finished k.

(** ** State and exceptions *)

Inductive Res (A : Type) :=
| Ok (a : A) (s : State)
| Threw (e : Val) (s : State).
Arguments Ok {A} a s.
Arguments Threw {A} e s.

Definition M (A : Type) := State -> Res A.

Definition state_of {A} (r : Res A) : State :=
  match r with Ok _ s => s | Threw _ s => s end.

#[global] Instance M_ret : MRet M := fun A a s => Ok a s.
#[global] Instance M_bind : MBind M := fun A B f m s =>
  match m s with Ok a s' => f a s' | Threw e s' => Threw e s' end.
Definition throw {A} (e : Val) : M A := fun s => Threw e s.
Definition try_catch {A} (m : M A) (h : Val -> M A) : M A :=
  fun s => match m s with Ok a s' => Ok a s' | Threw e s' => h e s' end.
Definition lift (f : State -> State) : M unit := fun s => Ok tt (f s).

(** The pair that a call to [resolve] or [reject] passes to [finish]. *)
Definition completion_pair (c : Completion) : Val * Val :=
  match c with
  | CallResolve result => (VNull, result)
  | CallReject err => (err, VNull)
  end.

(** The calls to caller factories, and the calls a task's listener got. *)
Definition calls (tr : list Obs) : list (nat * Val) :=
  omap (fun o => match o with ObsCall f v => Some (f, v) | _ => None end) tr.

Definition heard (t : TaskId) (tr : list Obs) : list (Val * Val) :=
  omap (fun o => match o with
                 | ObsListener t' err result =>
                     if decide (t' = t) then Some (err, result) else None
                 | _ => None
                 end) tr.

Definition aborted (tr : list Obs) : list TaskId :=
  omap (fun o => match o with ObsAbort t => Some t | _ => None end) tr.

(** ** Task.start and its private functions *)

(** [callback(finished.err, finished.result)] for the two callbacks there
    are. *)
Definition run_listener (l : Listener) (err result : Val) (s : State) : State :=
  match l with
  | ComposeListener c =>
      nextTick (ComposeTick c err result) (upd_env c (set_currentTask None) s)
  | FinallyListener cleanup => nextTick (Cleanup cleanup) s
  end.

(** [onFinish()] *)
Definition call_onFinish (t : TaskId) (s : State) : State :=
  match tasks s !! t with
  | Some k =>
      match onFinish k, finished k with
      | Some l, Some (err, result) =>
          run_listener l err result (log (ObsListener t err result) s)
      | _, _ => s
      end
  | None => s
  end.

(** [finish(err, result)] *)
Definition finish (t : TaskId) (err result : Val) (s : State) : State :=
  match tasks s !! t with
  | Some k =>
      match finished k with
      | None =>
          let s1 := upd_task t (set_finished (err, result)) s in
          match onFinish k with
          | Some _ => call_onFinish t s1
          | None => s1
          end
      | Some _ => s
      end
  | None => s
  end.

(** The two callbacks passed to [doSomething]. *)
Definition resolve (t : TaskId) (result : Val) : State -> State :=
  finish t VNull result.
Definition reject (t : TaskId) (err : Val) : State -> State :=
  finish t err VNull.

Definition complete (t : TaskId) (c : Completion) : State -> State :=
  match c with
  | CallResolve result => resolve t result
  | CallReject err => reject t err
  end.

Definition completes (t : TaskId) (cs : list Completion) (s : State) : State :=
  fold_left (fun s c => complete t c s) cs s.

(** [doSomething(resolve, reject)] for the task [t] under construction. *)
Definition run_starter (d : Starter) (t : TaskId) : M (option Abort) :=
  match d with
  | UserStarter calls ending =>
      lift (completes t calls);;
      match ending with
      | Throws e => throw e
      | Returns a => mret (UserAbort <$> a)
      end
  | CompositeStarter c => mret (Some (CancelComposite c))
  end.

(** [var me = {}], with [finished], [onFinish] and [abort] undefined. *)
Definition alloc (s : State) : State :=
  mkState (tasks s ++ [mkCell None None None]) (envs s) (queue s) (trace s).

Definition new_task : M TaskId := fun s => Ok (length (tasks s)) (alloc s).

(** [Task.start(doSomething)] *)
Definition start (d : Starter) : M TaskId :=
  me ← new_task;
  try_catch
    (a ← run_starter d me; lift (upd_task me (set_abort a)))
    (fun err => lift (finish me err VNull));;
  mret me.

(** [Task.withValue(result)] *)
Definition withValue (result : Val) : M TaskId :=
  start (UserStarter [CallResolve result] (Returns None)).

(** The variable [currentTask] of an environment. *)
Definition current (c : EnvId) (s : State) : option TaskId :=
  e ← envs s !! c; currentTask e.

(** [if (abort) abort()], given how to cancel a task. *)
Definition invoke_abort (cancel : TaskId -> State -> option State)
    (t : TaskId) (a : option Abort) (s : State) : option State :=
  match a with
  | None => Some s
  | Some (UserAbort _) => Some (log (ObsAbort t) s)
  | Some (CancelComposite c) =>
      let s1 := upd_env c set_cancelled (log (ObsAbort t) s) in
      match current c s1 with
      | Some t' => cancel t' s1
      | None => Some s1
      end
  end.

(** [me.cancel()], which re-enters itself through [cancelCompositeTask];
    [None] when the depth [n] does not suffice. *)
Fixpoint cancel_fuel (n : nat) (t : TaskId) (s : State) : option State :=
  match n with
  | 0 => None
  | S n =>
      match tasks s !! t with
      | Some k =>
          match finished k with
          | None =>
              invoke_abort (cancel_fuel n) t (abort k) (finish t sentinel VNull s)
          | Some _ => Some s
          end
      | None => Some s
      end
  end.

(** The number of tasks still running. *)
Definition running (s : State) : nat :=
  length (filter (fun k => finished k = None) (tasks s)).

Definition cancel (t : TaskId) (s : State) : option State :=
  cancel_fuel (S (running s)) t s.

Definition listener_twice : Val := VError "thenDo/finally called more than once".
Definition not_a_task : Val := VError "not a task".

(** [setListener(callback)] *)
Definition setListener (t : TaskId) (l : Listener) : M unit :=
  fun s =>
    match tasks s !! t with
    | Some k =>
        match onFinish k with
        | Some _ => Threw listener_twice s
        | None =>
            let s1 := upd_task t (set_onFinish l) s in
            Ok tt (match finished k with
                   | Some _ => call_onFinish t s1
                   | None => s1
                   end)
        end
    | None => Threw not_a_task s
    end.

(** [me.finally(cleanup)] *)
Definition finally (t : TaskId) (cleanup : nat) : M TaskId :=
  setListener t (FinallyListener cleanup);; mret t.

Definition new_env (firstTask : TaskId) (f g : option Factory) : M EnvId :=
  fun s => Ok (length (envs s))
              (mkState (tasks s)
                       (envs s ++ [mkEnv false (Some firstTask) f g (length (tasks s))])
                       (queue s) (trace s)).

(** [compose(firstTask, setFirstTaskListener, onResolve, onReject)], up to
    the function handed to [process.nextTick], which is [compose_tick]. *)
Definition compose (firstTask : TaskId) (f g : option Factory) : M TaskId :=
  c ← new_env firstTask f g;
  composite ← start (CompositeStarter c);
  setListener firstTask (ComposeListener c);;
  mret composite.

(** A method is called on a task that exists. *)
Definition is_task (t : TaskId) : M unit :=
  fun s => match tasks s !! t with
           | Some _ => Ok tt s
           | None => Threw not_a_task s
           end.

(** [me.thenDo(onResolve, onReject)] *)
Definition thenDo (t : TaskId) (f g : option Factory) : M TaskId :=
  is_task t;; compose t f g.

(** Running a caller's program that builds a task. *)
Fixpoint eval (e : TaskExpr) : M TaskId :=
  match e with
  | TStart calls ending => start (UserStarter calls ending)
  | TRef t => is_task t;; mret t
  | TThenDo e f g => t ← eval e; thenDo t f g
  | TFinally e cleanup => t ← eval e; finally t cleanup
  end.

(** [onResolve(firstResult)] / [onReject(firstErr)] *)
Definition call_factory (f : Factory) (v : Val) : M (option TaskId) :=
  match f with
  | UserFn name body =>
      lift (log (ObsCall name v));;
      match body v with
      | Throws e => throw e
      | Returns None => mret None
      | Returns (Some e) => t ← eval e; mret (Some t)
      end
  | ResolveOf t => lift (resolve t v);; mret None
  | RejectOf t => lift (reject t v);; mret None
  end.

Definition get_env (c : EnvId) : M Env :=
  fun s => match envs s !! c with
           | Some e => Ok e s
           | None => Threw (VError "no such environment") s
           end.

(** The last statement of the deferred function: the new current task, if
    there is one, reports to the composite task. *)
Definition attach (c : EnvId) (composite : TaskId) : M unit :=
  e ← get_env c;
  match currentTask e with
  | Some t =>
      thenDo t (Some (ResolveOf composite)) (Some (RejectOf composite));;
      mret tt
  | None => lift (resolve composite VUndefined)
  end.

(** The factory that the outcome of the first task selects, with its
    argument. *)
Definition chosen (e : Env) (firstErr firstResult : Val) : option Factory * Val :=
  if is_nullish firstErr then (onResolve e, firstResult) else (onReject e, firstErr).

(** The function that the listener of [compose] hands to
    [process.nextTick]; [true] from the protected block stands for falling
    through to the statement after it, [false] for [return]. *)
Definition compose_tick (c : EnvId) (firstErr firstResult : Val) : M unit :=
  e ← get_env c;
  let composite := compositeTask e in
  if (cancelled e || is_sentinel firstErr)%bool then
    lift (reject composite sentinel)
  else
    go ← try_catch
      (if is_nullish firstErr then
         match onResolve e with
         | Some f =>
             r ← call_factory f firstResult;
             lift (upd_env c (set_currentTask r));; mret true
         | None => lift (resolve composite firstResult);; mret false
         end
       else
         match onReject e with
         | Some g =>
             r ← call_factory g firstErr;
             lift (upd_env c (set_currentTask r));; mret true
         | None => lift (reject composite firstErr);; mret false
         end)
      (fun err => lift (reject composite err);; mret false);
    if go : bool then attach c composite else mret tt.

Definition run_deferred (d : Deferred) : M unit :=
  match d with
  | ComposeTick c firstErr firstResult => compose_tick c firstErr firstResult
  | Cleanup name => lift (log (ObsCleanup name))
  end.

(** One turn of the scheduler: the oldest deferred function runs. *)
Definition turn : M unit :=
  fun s =>
    match queue s with
    | [] => Ok tt s
    | d :: q => run_deferred d (mkState (tasks s) (envs s) q (trace s))
    end.

Fixpoint turns (n : nat) : M unit :=
  match n with
  | 0 => mret tt
  | S n => turn;; turns n
  end.

(** ** Derived notions and example stores *)

(** The cell a caller's starter leaves behind: the first completion call
    wins, a throw counts only when none came before it, and an abort
    function is kept only when the starter returns. *)
Definition started_cell (calls : list Completion) (ending : Ending (option nat)) : Cell :=
  mkCell
    match calls with
    | c :: _ => Some (completion_pair c)
    | [] => match ending with Throws e => Some (e, VNull) | Returns _ => None end
    end
    None
    match ending with Throws _ => None | Returns a => UserAbort <$> a end.

(** No factory is called, and no task that exists gets an outcome or
    another abort function. *)
Definition keeps (s s' : State) : Prop :=
  calls (trace s') = calls (trace s) /\
  forall t k, tasks s !! t = Some k ->
    exists k', tasks s' !! t = Some k' /\ finished k' = finished k /\ abort k' = abort k.

(** A task that runs, with an abort function, and a task that has finished. *)
Definition running_example : State :=
  state_of (start (UserStarter [] (Returns (Some 7))) initial).
Definition finished_example : State :=
  state_of (withValue (VNum 5) initial).

(** The store once [compose] has made its environment and its composite
    task, before the listener is set on the first task. *)
Definition composing (t : TaskId) (f g : option Factory) (s : State) : State :=
  mkState (tasks s ++ [mkCell None None (Some (CancelComposite (length (envs s))))])
          (envs s ++ [mkEnv false (Some t) f g (length (tasks s))])
          (queue s) (trace s).

(** The store, as seen from the store [s0] in which [thenDo] was called,
    once the first task has finished and before the deferred function of
    [compose] runs. *)
Definition tick_pending (s0 s : State) (f g : option Factory) (err result : Val) : Prop :=
  envs s !! length (envs s0) = Some (mkEnv false None f g (length (tasks s0)))
  /\ tasks s !! length (tasks s0)
     = Some (mkCell None None (Some (CancelComposite (length (envs s0)))))
  /\ queue s = queue s0 ++ [ComposeTick (length (envs s0)) err result]
  /\ calls (trace s) = calls (trace s0)
  /\ aborted (trace s) = aborted (trace s0)
  /\ length (tasks s) = S (length (tasks s0))
  /\ length (envs s) = S (length (envs s0)).

(** A composite task whose factory throws. *)
Definition thrower : Factory := UserFn 0 (fun _ => Throws (VStr "bad")).
Definition thrower_example : State :=
  state_of ((t ← withValue (VNum 5); thenDo t (Some thrower) None) initial).

(** [taskA.thenDo(f)] where taskA has rejected with "E", before the turn. *)
Definition identity_factory : Factory :=
  UserFn 0 (fun v => Returns (Some (TStart [CallResolve v] (Returns None)))).
Definition rejected_alone_example : State :=
  state_of (start (UserStarter [CallReject (VStr "E")] (Returns None)) initial).

(** A first task rejected with [null], its composite task and two
    factories that can be told apart. *)
Definition onResolve_example : Factory := UserFn 1 (fun _ => Returns None).
Definition onReject_example : Factory := UserFn 2 (fun _ => Returns None).
Definition null_rejection_example : State :=
  state_of ((t ← start (UserStarter [CallReject VNull] (Returns None));
             thenDo t (Some onResolve_example) (Some onReject_example)) initial).


(** [taskA.thenDo(f)] while taskA runs; then taskA resolved and the
    deferred function has run, [f] having started a task that runs. *)
Definition starting_factory : Factory :=
  UserFn 0 (fun _ => Returns (Some (TStart [] (Returns (Some 8))))).
Definition first_running_example : State :=
  state_of ((t ← start (UserStarter [] (Returns (Some 7)));
             thenDo t (Some starting_factory) None) initial).
Definition second_running_example : State :=
  state_of (turn (resolve 0 (VNum 1) first_running_example)).

(** [Task.withValue(1).thenDo(f)] where the task that [f] returns rejects
    with ['cancelled'], and where it is cancelled by the caller who holds
    it. *)
Definition self_cancelled_factory : Factory :=
  UserFn 0 (fun _ => Returns (Some (TStart [CallReject sentinel] (Returns None)))).
Definition failing_factory : Factory :=
  UserFn 0 (fun _ => Returns (Some (TStart [CallReject (VStr "E")] (Returns None)))).
Definition ordinary_failure_example : State :=
  state_of ((t ← withValue (VNum 1); thenDo t (Some failing_factory) None) initial).
Definition stranded_example : State :=
  state_of ((t ← withValue (VNum 1); thenDo t (Some self_cancelled_factory) None) initial).
Definition stranded_by_cancel_example : State :=
  default initial
    (cancel 2 (state_of (turn
       (state_of ((t ← withValue (VNum 1); thenDo t (Some starting_factory) None)
                    initial))))).

(** What a caller can do with the library, one call at a time: start a
    task, call a callback that a starter was given, call a method of a task,
    or let the scheduler serve the oldest deferred function.  An exception
    that a call throws leaves the store as the call left it. *)
Inductive Act :=
| ActStart (calls : list Completion) (ending : Ending (option nat))
| ActComplete (t : TaskId) (c : Completion)
| ActCancel (t : TaskId)
| ActThenDo (t : TaskId) (f g : option Factory)
| ActFinally (t : TaskId) (cleanup : nat)
| ActTurn.

Definition run_act (a : Act) (s : State) : State :=
  match a with
  | ActStart calls ending => state_of (start (UserStarter calls ending) s)
  | ActComplete t c => complete t c s
  | ActCancel t => default s (cancel t s)
  | ActThenDo t f g => state_of (thenDo t f g s)
  | ActFinally t cleanup => state_of (finally t cleanup s)
  | ActTurn => state_of (turn s)
  end.

Definition run_acts (acts : list Act) (s : State) : State :=
  fold_left (fun s a => run_act a s) acts s.

(** What the listener of a task must have heard by now: the outcome, once,
    if the task has finished and has a listener, and nothing otherwise. *)
Definition due (t : TaskId) (s : State) : list (Val * Val) :=
  match tasks s !! t with
  | Some k =>
      match onFinish k, finished k with
      | Some _, Some o => [o]
      | _, _ => []
      end
  | None => []
  end.

(** The runs of the cleanup function [n] in a trace, its entries in a queue,
    and the cells of the finished tasks that [finally] gave it to. *)
Definition times (n : nat) (l : list nat) : nat :=
  length (filter (fun m => m = n) l).
Definition cleanup_runs (n : nat) (tr : list Obs) : nat :=
  times n (omap (fun o => match o with ObsCleanup m => Some m | _ => None end) tr).
Definition cleanup_queued (n : nat) (q : list Deferred) : nat :=
  times n (omap (fun d => match d with Cleanup m => Some m | _ => None end) q).
Definition cleanup_owed (n : nat) (k : Cell) : bool :=
  match finished k, onFinish k with
  | Some _, Some (FinallyListener m) => Nat.eqb m n
  | _, _ => false
  end.
Definition cleanups_owed (n : nat) (ks : list Cell) : nat :=
  length (filter (fun k => cleanup_owed n k = true) ks).

(** A cell that has, at the least, what another one has: the same abort
    function, and the outcome and the listener of the other if it has one. *)
Definition cell_le (k k' : Cell) : Prop :=
  abort k' = abort k
  /\ (forall o, finished k = Some o -> finished k' = Some o)
  /\ (forall l, onFinish k = Some l -> onFinish k' = Some l).

(** A factory that returns a task to which it has given a cleanup, as in
    [return Task.start(...).finally(cleanup)], and one that returns a task
    resolved with the successor of its argument. *)
Definition finally_factory : Factory :=
  UserFn 0 (fun _ => Returns (Some (TFinally (TStart [] (Returns None)) 3))).
Definition successor_factory : Factory :=
  UserFn 0 (fun v => match v with
                     | VNum n => Returns (Some (TStart [CallResolve (VNum (n + 1))]
                                                  (Returns None)))
                     | _ => Throws (VError "not a number")
                     end).

(** * Properties *)

Ltac munfold :=
  unfold mbind, mret, M_bind, M_ret, lift, throw, try_catch in *.

(** ** The store under [finish] *)

Section Finish.
Variables (t : TaskId) (err result : Val).

Lemma tasks_run_listener l e r s : tasks (run_listener l e r s) = tasks s.
Proof. by destruct l. Qed.

Lemma tasks_call_onFinish s : tasks (call_onFinish t s) = tasks s.
Proof.
  unfold call_onFinish. destruct (tasks s !! t) as [k|]; [|done].
  destruct (onFinish k); [|done]. destruct (finished k) as [[e r]|]; [|done].
  by rewrite tasks_run_listener.
Qed.

(** Once a task has an outcome, or for an identity that names no task,
    [finish] does nothing at all. *)
Lemma finish_finished s : outcome t s <> None -> finish t err result s = s.
Proof.
  unfold outcome, finish. destruct (tasks s !! t) as [k|]; simpl; [|done].
  by destruct (finished k).
Qed.

Lemma finish_no_task s : tasks s !! t = None -> finish t err result s = s.
Proof. unfold finish. by intros ->. Qed.

Lemma tasks_finish_running s k :
  tasks s !! t = Some k -> finished k = None ->
  tasks (finish t err result s) = <[t := set_finished (err, result) k]> (tasks s).
Proof.
  intros Hk Hf. unfold finish. rewrite Hk, Hf.
  assert (tasks (upd_task t (set_finished (err, result)) s)
          = <[t := set_finished (err, result) k]> (tasks s)) as E.
  { simpl. apply list_eq. intros i. destruct (decide (i = t)) as [->|Hne].
    - rewrite list_lookup_alter_eq, Hk. simpl.
      rewrite list_lookup_insert_eq; [done|]. by eapply lookup_lt_Some.
    - by rewrite list_lookup_alter_ne, list_lookup_insert_ne. }
  destruct (onFinish k); [rewrite tasks_call_onFinish|]; exact E.
Qed.

Lemma outcome_finish_running s :
  (exists k, tasks s !! t = Some k /\ finished k = None) ->
  outcome t (finish t err result s) = Some (err, result).
Proof.
  intros (k & Hk & Hf). unfold outcome.
  rewrite (tasks_finish_running s k Hk Hf).
  rewrite list_lookup_insert_eq; [done|]. by eapply lookup_lt_Some.
Qed.

Lemma outcome_finish_other s t' :
  t' <> t -> outcome t' (finish t err result s) = outcome t' s.
Proof.
  intros Hne. unfold outcome.
  destruct (tasks s !! t) as [k|] eqn:Hk; [|by rewrite finish_no_task].
  destruct (finished k) eqn:Hf.
  - rewrite finish_finished; [done|]. unfold outcome. by rewrite Hk; simpl; rewrite Hf.
  - rewrite (tasks_finish_running s k Hk Hf). by rewrite list_lookup_insert_ne.
Qed.

Lemma length_tasks_finish s : length (tasks (finish t err result s)) = length (tasks s).
Proof.
  destruct (tasks s !! t) as [k|] eqn:Hk; [|by rewrite finish_no_task].
  destruct (finished k) eqn:Hf.
  - rewrite finish_finished; [done|]. unfold outcome. by rewrite Hk; simpl; rewrite Hf.
  - rewrite (tasks_finish_running s k Hk Hf). apply length_insert.
Qed.
End Finish.

Lemma outcome_Some t s o :
  outcome t s = Some o <-> exists k, tasks s !! t = Some k /\ finished k = Some o.
Proof.
  unfold outcome. destruct (tasks s !! t) as [k|]; simpl.
  - split; [eauto|]. intros (k' & E & Hf). by injection E as ->.
  - split; [done|]. by intros (k' & E & _).
Qed.

Lemma outcome_finish_fixed t err result s t0 o :
  outcome t0 s = Some o -> outcome t0 (finish t err result s) = Some o.
Proof.
  intros Ho. destruct (decide (t0 = t)) as [->|Hne].
  - rewrite finish_finished; [done|]. by rewrite Ho.
  - by rewrite outcome_finish_other.
Qed.

Lemma complete_finished t c s : outcome t s <> None -> complete t c s = s.
Proof. destruct c; apply finish_finished. Qed.

Lemma completes_finished t cs s : outcome t s <> None -> completes t cs s = s.
Proof.
  induction cs as [|c cs IH]; [done|]. intros H. simpl.
  rewrite complete_finished; auto.
Qed.

Lemma outcome_complete_running t c s :
  (exists k, tasks s !! t = Some k /\ finished k = None) ->
  outcome t (complete t c s) = Some (completion_pair c).
Proof. destruct c; apply outcome_finish_running. Qed.

Lemma complete_no_task t c s : tasks s !! t = None -> complete t c s = s.
Proof. destruct c; apply finish_no_task. Qed.

(** After the first call, nothing moves. *)
Lemma completes_after_first t c cs s :
  completes t (c :: cs) s = complete t c s.
Proof.
  simpl. destruct (tasks s !! t) as [k|] eqn:Hk.
  - apply completes_finished. destruct (finished k) eqn:Hf.
    + rewrite complete_finished; unfold outcome; rewrite Hk; simpl; by rewrite Hf.
    + rewrite outcome_complete_running; [done|eauto].
  - rewrite complete_no_task by done. clear c.
    induction cs as [|c cs IH]; [done|]. simpl. by rewrite complete_no_task.
Qed.

(** ** finish in closed form *)

Lemma trace_run_listener l err result s : trace (run_listener l err result s) = trace s.
Proof. by destruct l. Qed.

Lemma finish_running t err result s k :
  tasks s !! t = Some k -> finished k = None ->
  finish t err result s
  = let s' := upd_task t (set_finished (err, result)) s in
    match onFinish k with
    | Some l => run_listener l err result (log (ObsListener t err result) s')
    | None => s'
    end.
Proof.
  intros Hk Hf. unfold finish. rewrite Hk, Hf. simpl.
  destruct (onFinish k) as [l|] eqn:Hl; [|done].
  unfold call_onFinish. simpl. rewrite list_lookup_alter_eq, Hk. simpl. by rewrite Hl.
Qed.

Lemma heard_app t tr tr' : heard t (tr ++ tr') = heard t tr ++ heard t tr'.
Proof. apply omap_app. Qed.

(** A task that finishes tells its listener, once; its outcome goes to the
    back of the queue when the listener is the one of [compose]. *)
Lemma finish_heard t err result s k l :
  tasks s !! t = Some k -> finished k = None -> onFinish k = Some l ->
  trace (finish t err result s) = trace s ++ [ObsListener t err result]
  /\ heard t (trace (finish t err result s)) = heard t (trace s) ++ [(err, result)]
  /\ queue (finish t err result s)
     = queue s ++ [match l with
                   | ComposeListener c => ComposeTick c err result
                   | FinallyListener cleanup => Cleanup cleanup
                   end].
Proof.
  intros Hk Hf Hl. rewrite (finish_running _ _ _ _ _ Hk Hf), Hl. simpl.
  rewrite trace_run_listener. simpl. split; [done|]. split.
  - rewrite heard_app. simpl. by rewrite decide_True.
  - by destruct l.
Qed.

(** ** Cancellation *)

Lemma envs_finish_trace t err result s :
  aborted (trace (finish t err result s)) = aborted (trace s)
  /\ calls (trace (finish t err result s)) = calls (trace s).
Proof.
  unfold finish. destruct (tasks s !! t) as [k|]; [|done].
  destruct (finished k); [done|]. destruct (onFinish k) as [l|]; [|done].
  unfold call_onFinish. simpl. rewrite list_lookup_alter_eq.
  destruct (tasks s !! t) as [k'|]; [|done]. simpl.
  destruct (onFinish k') as [l'|]; [|done].
  unfold aborted, calls. destruct l'; simpl; rewrite !omap_app; simpl;
    by rewrite !app_nil_r.
Qed.

Lemma running_insert (l : list Cell) i k k' :
  l !! i = Some k -> finished k = None -> finished k' <> None ->
  length (filter (fun k => finished k = None) l)
  = S (length (filter (fun k => finished k = None) (<[i := k']> l))).
Proof.
  intros Hi Hk Hk'.
  rewrite <- (take_drop_middle l i k Hi) at 1.
  rewrite insert_take_drop by (by eapply lookup_lt_Some).
  rewrite !filter_app, !length_app, !filter_cons.
  destruct (decide (finished k = None)); [|done].
  destruct (decide (finished k' = None)); [done|]. simpl. lia.
Qed.

Lemma running_finish t err result s k :
  tasks s !! t = Some k -> finished k = None ->
  running s = S (running (finish t err result s)).
Proof.
  intros Hk Hf. unfold running. rewrite (tasks_finish_running _ _ _ _ _ Hk Hf).
  by apply (running_insert _ _ k).
Qed.

Lemma invoke_abort_ext c1 c2 t a s :
  (forall t' s', running s' = running s -> c1 t' s' = c2 t' s') ->
  invoke_abort c1 t a s = invoke_abort c2 t a s.
Proof.
  intros H. destruct a as [[a|c]|]; simpl; try done.
  destruct (current c _); [|done]. by apply H.
Qed.

Lemma cancel_fuel_S n t s :
  cancel_fuel (S n) t s =
  match tasks s !! t with
  | Some k =>
      match finished k with
      | None => invoke_abort (cancel_fuel n) t (abort k) (finish t sentinel VNull s)
      | Some _ => Some s
      end
  | None => Some s
  end.
Proof. done. Qed.

(** The depth that [cancel] allows is never exhausted: each nested call
    comes after one more task has finished. *)
Lemma cancel_fuel_enough n : forall t s,
  running s < n -> is_Some (cancel_fuel n t s).
Proof.
  induction n as [|n IH]; intros t s Hn; [lia|].
  rewrite cancel_fuel_S. destruct (tasks s !! t) as [k|] eqn:Hk; [|by eexists].
  destruct (finished k) eqn:Hf; [by eexists|].
  pose proof (running_finish t sentinel VNull s k Hk Hf) as Hr.
  destruct (abort k) as [[a|c]|]; simpl; try by eexists.
  destruct (current c _); [|by eexists]. apply IH. unfold running in *. simpl. lia.
Qed.

Lemma cancel_fuel_mono n : forall m t s s',
  cancel_fuel n t s = Some s' -> n <= m -> cancel_fuel m t s = Some s'.
Proof.
  induction n as [|n IH]; intros m t s s' H Hle; [done|].
  destruct m as [|m]; [lia|]. rewrite cancel_fuel_S in *.
  destruct (tasks s !! t) as [k|]; [|done]. destruct (finished k); [done|].
  destruct (abort k) as [[a|c]|]; simpl in *; try done.
  destruct (current c _); [|done]. apply IH; [done|lia].
Qed.

Lemma cancel_fuel_cancel n t s : running s < n -> cancel_fuel n t s = cancel t s.
Proof.
  intros Hn. destruct (cancel_fuel_enough (S (running s)) t s) as [s' Hs']; [lia|].
  unfold cancel. rewrite Hs'. eapply cancel_fuel_mono; [done|lia].
Qed.

(** [cancel] always returns. *)
Lemma cancel_total t s : is_Some (cancel t s).
Proof. apply cancel_fuel_enough. lia. Qed.

(** [me.cancel()] read as the source writes it. *)
Lemma cancel_unfold t s :
  cancel t s =
  match tasks s !! t with
  | Some k =>
      match finished k with
      | None => invoke_abort cancel t (abort k) (finish t sentinel VNull s)
      | Some _ => Some s
      end
  | None => Some s
  end.
Proof.
  unfold cancel at 1. rewrite cancel_fuel_S.
  destruct (tasks s !! t) as [k|] eqn:Hk; [|done].
  destruct (finished k) eqn:Hf; [done|].
  apply invoke_abort_ext. intros t' s' Hr. apply cancel_fuel_cancel.
  rewrite Hr. rewrite (running_finish t sentinel VNull s k Hk Hf). lia.
Qed.

(** What every step of a cancellation preserves, the whole of it
    preserves. *)
Section CancelPreserves.
Variable R : State -> State -> Prop.
Hypothesis R_refl : forall s, R s s.
Hypothesis R_trans : forall s1 s2 s3, R s1 s2 -> R s2 s3 -> R s1 s3.
Hypothesis R_finish : forall t err result s, R s (finish t err result s).
Hypothesis R_log : forall t s, R s (log (ObsAbort t) s).
Hypothesis R_cancelled : forall c s, R s (upd_env c set_cancelled s).

Lemma cancel_fuel_preserves n : forall t s s',
  cancel_fuel n t s = Some s' -> R s s'.
Proof.
  induction n as [|n IH]; intros t s s' H; [done|].
  rewrite cancel_fuel_S in H.
  destruct (tasks s !! t) as [k|]; [|by injection H as <-].
  destruct (finished k); [by injection H as <-|].
  eapply R_trans; [apply (R_finish t sentinel VNull)|].
  destruct (abort k) as [[a|c]|]; simpl in H.
  - injection H as <-. apply R_log.
  - eapply R_trans; [apply (R_log t)|].
    eapply R_trans; [apply (R_cancelled c)|].
    destruct (current c _); [by eapply IH|by injection H as <-].
  - by injection H as <-.
Qed.

Lemma cancel_preserves t s s' : cancel t s = Some s' -> R s s'.
Proof. apply cancel_fuel_preserves. Qed.
End CancelPreserves.

Lemma cancel_outcome_stable t s s' t0 o :
  cancel t s = Some s' -> outcome t0 s = Some o -> outcome t0 s' = Some o.
Proof.
  intros H. revert t0 o.
  apply (cancel_preserves
    (fun s s' => forall t0 o, outcome t0 s = Some o -> outcome t0 s' = Some o))
    with (t := t); try done.
  - intros s1 s2 s3 H1 H2 t0 o Ho. auto.
  - intros t1 err result s1 t0 o Ho. destruct (decide (t0 = t1)) as [->|Hne].
    + rewrite finish_finished; [done|]. by rewrite Ho.
    + by rewrite outcome_finish_other.
Qed.

Lemma cancel_calls t s s' : cancel t s = Some s' -> calls (trace s') = calls (trace s).
Proof.
  apply (cancel_preserves (fun s s' => calls (trace s') = calls (trace s))); try done.
  - intros s1 s2 s3 H1 H2. congruence.
  - intros. apply envs_finish_trace.
  - intros t1 s1. unfold calls. simpl. rewrite omap_app. simpl. by rewrite app_nil_r.
Qed.

Lemma cancel_aborted t s s' :
  cancel t s = Some s' -> exists rest, aborted (trace s') = aborted (trace s) ++ rest.
Proof.
  apply (cancel_preserves
    (fun s s' => exists rest, aborted (trace s') = aborted (trace s) ++ rest)).
  - intros s1. exists []. by rewrite app_nil_r.
  - intros s1 s2 s3 [r1 H1] [r2 H2]. exists (r1 ++ r2). by rewrite H2, H1, app_assoc.
  - intros t1 err result s1. exists [].
    rewrite app_nil_r. apply envs_finish_trace.
  - intros t1 s1. exists [t1]. unfold aborted. simpl. by rewrite omap_app.
  - intros c s1. exists []. by rewrite app_nil_r.
Qed.

(** ** Task.start in closed form *)

Lemma lookup_alloc s : tasks (alloc s) !! length (tasks s) = Some (mkCell None None None).
Proof. simpl. by rewrite list_lookup_middle. Qed.

Lemma upd_task_alloc f s k :
  upd_task (length (tasks s)) f
    (mkState (tasks s ++ [k]) (envs s) (queue s) (trace s))
  = mkState (tasks s ++ [f k]) (envs s) (queue s) (trace s).
Proof.
  unfold upd_task. simpl. f_equal.
  rewrite alter_app_r_alt by lia. by rewrite Nat.sub_diag.
Qed.

Lemma complete_alloc c s :
  complete (length (tasks s)) c (alloc s)
  = mkState (tasks s ++ [mkCell (Some (completion_pair c)) None None])
            (envs s) (queue s) (trace s).
Proof.
  destruct c; unfold complete, resolve, reject, finish;
    rewrite lookup_alloc; simpl; unfold alloc; by rewrite upd_task_alloc.
Qed.

Lemma start_user calls ending s :
  start (UserStarter calls ending) s
  = Ok (length (tasks s))
       (mkState (tasks s ++ [started_cell calls ending]) (envs s) (queue s) (trace s)).
Proof.
  unfold start, new_task, run_starter. munfold.
  destruct calls as [|c cs].
  - simpl. destruct ending as [e|a].
    + unfold finish. rewrite lookup_alloc. simpl. unfold alloc.
      by rewrite upd_task_alloc.
    + unfold alloc. by rewrite upd_task_alloc.
  - rewrite completes_after_first, complete_alloc.
    destruct ending as [e|a].
    + rewrite finish_finished; [done|]. unfold outcome. simpl.
      by rewrite list_lookup_middle.
    + by rewrite upd_task_alloc.
Qed.

Lemma start_composite c s :
  start (CompositeStarter c) s
  = Ok (length (tasks s))
       (mkState (tasks s ++ [mkCell None None (Some (CancelComposite c))])
                (envs s) (queue s) (trace s)).
Proof.
  unfold start, new_task, run_starter. munfold. unfold alloc.
  by rewrite upd_task_alloc.
Qed.

(** [Task.start] hands back a task whatever the starter does. *)
Lemma start_returns d s : exists s', start d s = Ok (length (tasks s)) s'.
Proof.
  destruct d as [calls ending|c]; [rewrite start_user|rewrite start_composite];
    by eexists.
Qed.

(** ** What building tasks leaves alone *)

Lemma keeps_refl s : keeps s s.
Proof. split; [done|]. intros t k Hk. by exists k. Qed.

Lemma keeps_trans s1 s2 s3 : keeps s1 s2 -> keeps s2 s3 -> keeps s1 s3.
Proof.
  intros [C1 T1] [C2 T2]. split; [congruence|].
  intros t k Hk. destruct (T1 t k Hk) as (k1 & Hk1 & F1 & A1).
  destruct (T2 t k1 Hk1) as (k2 & Hk2 & F2 & A2).
  exists k2. repeat split; congruence.
Qed.

Lemma keeps_same_tasks s s' :
  tasks s' = tasks s -> calls (trace s') = calls (trace s) -> keeps s s'.
Proof. intros E C. split; [done|]. intros t k Hk. exists k. by rewrite E. Qed.

Lemma calls_call_onFinish t s : calls (trace (call_onFinish t s)) = calls (trace s).
Proof.
  unfold call_onFinish. destruct (tasks s !! t) as [k|]; [|done].
  destruct (onFinish k) as [l|]; [|done]. destruct (finished k) as [[e r]|]; [|done].
  unfold calls. destruct l; simpl; rewrite omap_app; simpl; by rewrite app_nil_r.
Qed.

Lemma keeps_call_onFinish t s : keeps s (call_onFinish t s).
Proof. apply keeps_same_tasks; [apply tasks_call_onFinish|apply calls_call_onFinish]. Qed.

Lemma keeps_new_cell s k :
  keeps s (mkState (tasks s ++ [k]) (envs s) (queue s) (trace s)).
Proof.
  split; [done|]. intros t k0 Hk. exists k0. simpl.
  by rewrite (lookup_app_l_Some _ _ _ _ Hk).
Qed.

Lemma keeps_start d s : keeps s (state_of (start d s)).
Proof.
  destruct d as [calls ending|c]; [rewrite start_user|rewrite start_composite];
    apply keeps_new_cell.
Qed.

Lemma keeps_set_onFinish t l s : keeps s (upd_task t (set_onFinish l) s).
Proof.
  split; [done|]. intros t' k Hk. simpl.
  destruct (decide (t = t')) as [->|Hne].
  - exists (set_onFinish l k). by rewrite list_lookup_alter_eq, Hk.
  - exists k. by rewrite list_lookup_alter_ne.
Qed.

Lemma keeps_setListener t l s : keeps s (state_of (setListener t l s)).
Proof.
  unfold setListener. destruct (tasks s !! t) as [k|]; [|apply keeps_refl].
  destruct (onFinish k); [apply keeps_refl|]. simpl.
  destruct (finished k).
  - eapply keeps_trans; [apply keeps_set_onFinish|apply keeps_call_onFinish].
  - apply keeps_set_onFinish.
Qed.

Lemma keeps_new_env t f g s : keeps s (state_of (new_env t f g s)).
Proof. by apply keeps_same_tasks. Qed.

(** Sequencing, for a property of the states that is a preorder. *)
Lemma keeps_bind {A B} (m : M A) (f : A -> M B) s :
  keeps s (state_of (m s)) -> (forall a s', keeps s' (state_of (f a s'))) ->
  keeps s (state_of ((m ≫= f) s)).
Proof.
  intros Hm Hf. munfold. destruct (m s) as [a s'|e s'] eqn:E; simpl in *; [|done].
  eapply keeps_trans; [done|apply Hf].
Qed.

Lemma keeps_is_task t s : keeps s (state_of (is_task t s)).
Proof. unfold is_task. destruct (tasks s !! t); apply keeps_refl. Qed.

Lemma keeps_mret {A} (a : A) s : keeps s (state_of ((mret a : M A) s)).
Proof. apply keeps_refl. Qed.

Create HintDb keeps.
#[local] Hint Resolve keeps_refl keeps_start keeps_setListener keeps_new_env
  keeps_is_task keeps_mret : keeps.

(** Walks down a sequence of operations that each keep the store. *)
Ltac keeps_steps :=
  solve [auto with keeps]
  || (apply keeps_bind; [keeps_steps|intros ? ?; cbv beta; keeps_steps]).

Lemma keeps_compose t f g s : keeps s (state_of (compose t f g s)).
Proof. unfold compose. keeps_steps. Qed.

#[local] Hint Resolve keeps_compose : keeps.

Lemma keeps_thenDo t f g s : keeps s (state_of (thenDo t f g s)).
Proof. unfold thenDo. keeps_steps. Qed.

Lemma keeps_finally t cleanup s : keeps s (state_of (finally t cleanup s)).
Proof. unfold finally. keeps_steps. Qed.

#[local] Hint Resolve keeps_thenDo keeps_finally : keeps.

Lemma keeps_eval e : forall s, keeps s (state_of (eval e s)).
Proof.
  induction e as [calls ending|t|e IH f g|e IH cleanup]; intros s; cbn [eval];
    keeps_steps.
Qed.

(** ** The deferred function of [compose], case by case *)

Section ComposeTick.
Variables (c : EnvId) (firstErr firstResult : Val) (s : State) (e : Env).
Hypothesis Henv : envs s !! c = Some e.

(** Lines 185-188: the composite task was cancelled, or the first task
    was. *)
Lemma compose_tick_cancelled :
  (cancelled e || is_sentinel firstErr)%bool = true ->
  compose_tick c firstErr firstResult s = Ok tt (reject (compositeTask e) sentinel s).
Proof.
  intros H. unfold compose_tick, get_env. munfold. by rewrite Henv, H.
Qed.

Hypothesis Hlive : cancelled e = false.
Hypothesis Herr : is_sentinel firstErr = false.

(** Lines 194-196 and 201-203: no factory for the outcome. *)
Lemma compose_tick_direct arg :
  chosen e firstErr firstResult = (None, arg) ->
  compose_tick c firstErr firstResult s
  = Ok tt (finish (compositeTask e) (if is_nullish firstErr then VNull else firstErr)
                  (if is_nullish firstErr then firstResult else VNull) s).
Proof.
  unfold chosen, compose_tick, get_env. munfold. rewrite Henv, Hlive, Herr. simpl.
  destruct (is_nullish firstErr); intros [= -> <-]; done.
Qed.

(** Lines 193 and 200, with the handler of line 206 and the statements
    after it. *)
Lemma compose_tick_factory f arg :
  chosen e firstErr firstResult = (Some f, arg) ->
  compose_tick c firstErr firstResult s
  = match call_factory f arg s with
    | Ok r s1 => attach c (compositeTask e) (upd_env c (set_currentTask r) s1)
    | Threw err s1 => Ok tt (reject (compositeTask e) err s1)
    end.
Proof.
  unfold chosen, compose_tick, get_env. munfold. rewrite Henv, Hlive, Herr. simpl.
  destruct (is_nullish firstErr); intros [= -> <-];
    by destruct (call_factory f _ s).
Qed.
End ComposeTick.

(** What [cancel] does to a task that exists. *)
Lemma cancel_cases (t : TaskId) (s : State) (k : Cell) :
  tasks s !! t = Some k ->
  match finished k with
  | Some _ => cancel t s = Some s
  | None =>
      outcome t (finish t sentinel VNull s) = Some (sentinel, VNull)
      /\ cancel t s = invoke_abort cancel t (abort k) (finish t sentinel VNull s)
      /\ exists s', cancel t s = Some s'
         /\ outcome t s' = Some (sentinel, VNull)
         /\ match abort k with
            | None => aborted (trace s') = aborted (trace s)
            | Some (UserAbort _) => aborted (trace s') = aborted (trace s) ++ [t]
            | Some (CancelComposite _) =>
                exists rest, aborted (trace s') = aborted (trace s) ++ t :: rest
            end
  end.
Proof.
  intros Hk. rewrite cancel_unfold, Hk. destruct (finished k) eqn:Hf; [done|].
  assert (outcome t (finish t sentinel VNull s) = Some (sentinel, VNull)) as Ho
    by (apply outcome_finish_running; eauto).
  pose proof (proj1 (envs_finish_trace t sentinel VNull s)) as Ha.
  split; [done|]. split; [done|].
  destruct (abort k) as [[a|c]|]; simpl.
  - eexists. split; [done|]. split; [done|].
    unfold aborted in *. simpl. rewrite omap_app, Ha. done.
  - set (s2 := upd_env c set_cancelled (log (ObsAbort t) (finish t sentinel VNull s))).
    assert (aborted (trace s2) = aborted (trace s) ++ [t]) as Ha2.
    { unfold aborted in *. simpl. rewrite omap_app, Ha. done. }
    destruct (current c s2) as [t'|].
    + destruct (cancel_total t' s2) as [s' Hs']. exists s'. split; [done|].
      split; [by eapply cancel_outcome_stable|].
      destruct (cancel_aborted _ _ _ Hs') as [rest Hr]. exists rest.
      by rewrite Hr, Ha2, <- app_assoc.
    + exists s2. split; [done|]. split; [done|]. exists []. done.
  - eexists. split; [done|]. by split.
Qed.

Lemma start_throws calls thrown s :
  start (UserStarter calls (Throws thrown)) s
  = Ok (length (tasks s))
       (reject (length (tasks s)) thrown (completes (length (tasks s)) calls (alloc s))).
Proof.
  rewrite start_user. f_equal. destruct calls as [|c cs].
  - simpl. unfold reject, finish. rewrite lookup_alloc. simpl. unfold alloc.
    by rewrite upd_task_alloc.
  - rewrite completes_after_first, complete_alloc. unfold reject.
    rewrite finish_finished; [done|]. unfold outcome. simpl.
    by rewrite list_lookup_middle.
Qed.

Lemma lookup_two {A} (l : list A) x y : ((l ++ [x]) ++ [y]) !! length l = Some x.
Proof. rewrite lookup_app_l by (rewrite length_app; simpl; lia). apply list_lookup_middle. done. Qed.

(** A listener set on a finished task hears the outcome at once. *)
Lemma setListener_finished t l s k err result :
  tasks s !! t = Some k -> onFinish k = None -> finished k = Some (err, result) ->
  setListener t l s
  = Ok tt (run_listener l err result
             (log (ObsListener t err result) (upd_task t (set_onFinish l) s))).
Proof.
  intros Hk Hl Hf. unfold setListener. rewrite Hk, Hl, Hf.
  unfold call_onFinish. simpl. rewrite list_lookup_alter_eq, Hk. simpl. by rewrite Hf.
Qed.

Lemma setListener_running t l s k :
  tasks s !! t = Some k -> onFinish k = None -> finished k = None ->
  setListener t l s = Ok tt (upd_task t (set_onFinish l) s).
Proof. intros Hk Hl Hf. unfold setListener. by rewrite Hk, Hl, Hf. Qed.

Lemma setListener_twice t l s k :
  tasks s !! t = Some k -> onFinish k <> None ->
  setListener t l s = Threw listener_twice s.
Proof. intros Hk Hl. unfold setListener. rewrite Hk. by destruct (onFinish k). Qed.

Lemma call_factory_threw f arg s err s1 :
  call_factory f arg s = Threw err s1 ->
  forall t k, tasks s !! t = Some k ->
    exists k', tasks s1 !! t = Some k' /\ finished k' = finished k /\ abort k' = abort k.
Proof.
  destruct f as [name body|t0|t0]; simpl; munfold; [|done..].
  destruct (body arg) as [e0|[ex|]]; [| |done].
  - intros [= _ <-] t k Hk. by exists k.
  - pose proof (keeps_eval ex (log (ObsCall name arg) s)) as [_ K].
    destruct (eval ex _) as [a s2|e2 s2]; [done|]. intros [= _ <-]. exact K.
Qed.

(** ** thenDo in closed form *)

Lemma thenDo_unfold t f g s k :
  tasks s !! t = Some k ->
  thenDo t f g s
  = match setListener t (ComposeListener (length (envs s))) (composing t f g s) with
    | Ok _ s' => Ok (length (tasks s)) s'
    | Threw e s' => Threw e s'
    end.
Proof.
  intros Hk. unfold thenDo, is_task, compose, new_env. munfold. rewrite Hk.
  by rewrite start_composite.
Qed.

Lemma lookup_composing t f g s k :
  tasks s !! t = Some k -> tasks (composing t f g s) !! t = Some k.
Proof. intros Hk. simpl. by apply lookup_app_l_Some. Qed.

Lemma thenDo_fresh t f g s k :
  tasks s !! t = Some k -> onFinish k = None ->
  thenDo t f g s
  = Ok (length (tasks s))
       (let l := ComposeListener (length (envs s)) in
        let s' := upd_task t (set_onFinish l) (composing t f g s) in
        match finished k with
        | Some (err, result) =>
            run_listener l err result (log (ObsListener t err result) s')
        | None => s'
        end).
Proof.
  intros Hk Hl. rewrite (thenDo_unfold _ _ _ _ _ Hk).
  pose proof (lookup_composing t f g s k Hk) as Hk'.
  destruct (finished k) as [[err result]|] eqn:Hf.
  - by rewrite (setListener_finished _ _ _ _ _ _ Hk' Hl Hf).
  - by rewrite (setListener_running _ _ _ _ Hk' Hl Hf).
Qed.

Lemma thenDo_twice t f g s k :
  tasks s !! t = Some k -> onFinish k <> None ->
  thenDo t f g s = Threw listener_twice (composing t f g s).
Proof.
  intros Hk Hl. rewrite (thenDo_unfold _ _ _ _ _ Hk).
  by rewrite (setListener_twice _ _ _ _ (lookup_composing t f g s k Hk) Hl).
Qed.

Lemma calls_snoc_listener tr t err result :
  calls (tr ++ [ObsListener t err result]) = calls tr.
Proof. unfold calls. rewrite omap_app. simpl. by rewrite app_nil_r. Qed.

Lemma aborted_snoc_listener tr t err result :
  aborted (tr ++ [ObsListener t err result]) = aborted tr.
Proof. unfold aborted. rewrite omap_app. simpl. by rewrite app_nil_r. Qed.

Lemma aborted_snoc_call tr f v : aborted (tr ++ [ObsCall f v]) = aborted tr.
Proof. unfold aborted. rewrite omap_app. simpl. by rewrite app_nil_r. Qed.

(** [thenDo] on a task that has finished. *)
Lemma thenDo_finished_pending A f g s kA err result :
  tasks s !! A = Some kA -> onFinish kA = None -> finished kA = Some (err, result) ->
  exists s', thenDo A f g s = Ok (length (tasks s)) s'
    /\ tick_pending s s' f g err result.
Proof.
  intros Hk Hl Hf. rewrite (thenDo_fresh A f g s kA Hk Hl), Hf. cbn zeta.
  pose proof (lookup_lt_Some _ _ _ Hk) as Hlt.
  eexists. split; [done|]. unfold tick_pending. simpl.
  rewrite list_lookup_alter_eq, list_lookup_middle by done.
  rewrite list_lookup_alter_ne by lia. rewrite list_lookup_middle by done.
  rewrite calls_snoc_listener, aborted_snoc_listener, !length_alter, !length_app.
  simpl. repeat split; lia.
Qed.

(** [thenDo] on a task that runs, which then finishes. *)
Lemma thenDo_running_pending A f g s kA :
  tasks s !! A = Some kA -> onFinish kA = None -> finished kA = None ->
  exists s1, thenDo A f g s = Ok (length (tasks s)) s1
    /\ forall err result,
         tick_pending s (finish A err result s1) f g err result
         /\ outcome A (finish A err result s1) = Some (err, result).
Proof.
  intros Hk Hl Hf. rewrite (thenDo_fresh A f g s kA Hk Hl), Hf. cbn zeta.
  pose proof (lookup_lt_Some _ _ _ Hk) as Hlt.
  eexists. split; [done|]. intros err result.
  set (l := ComposeListener (length (envs s))).
  assert (tasks (upd_task A (set_onFinish l) (composing A f g s)) !! A
          = Some (set_onFinish l kA)) as Hk1.
  { simpl. rewrite list_lookup_alter_eq. by rewrite (lookup_app_l_Some _ _ _ _ Hk). }
  split; [|apply outcome_finish_running; eauto].
  rewrite (finish_running _ _ _ _ _ Hk1 Hf). unfold tick_pending. simpl.
  rewrite list_lookup_alter_eq, list_lookup_middle by done.
  rewrite !list_lookup_alter_ne by lia. rewrite list_lookup_middle by done.
  rewrite calls_snoc_listener, aborted_snoc_listener, !length_alter, !length_app.
  simpl. repeat split; lia.
Qed.

(** The handler of line 206. *)
Lemma compose_tick_catches c firstErr firstResult s e f arg thrown s1 :
  envs s !! c = Some e -> cancelled e = false -> is_sentinel firstErr = false ->
  chosen e firstErr firstResult = (Some f, arg) ->
  call_factory f arg s = Threw thrown s1 ->
  compose_tick c firstErr firstResult s = Ok tt (reject (compositeTask e) thrown s1)
  /\ ((exists k, tasks s !! compositeTask e = Some k /\ finished k = None) ->
      outcome (compositeTask e) (reject (compositeTask e) thrown s1)
      = Some (thrown, VNull)).
Proof.
  intros He Hlive Hs Hch Hf.
  rewrite (compose_tick_factory _ _ _ _ _ He Hlive Hs _ _ Hch), Hf.
  split; [done|]. intros (k & Hk & Hrun).
  destruct (call_factory_threw _ _ _ _ _ Hf _ _ Hk) as (k' & Hk' & Hfin & _).
  apply outcome_finish_running. exists k'. split; [done|congruence].
Qed.

(** ** Factories are called from the deferred function only *)

Lemma calls_log_other o s :
  (forall f v, o <> ObsCall f v) -> calls (trace (log o s)) = calls (trace s).
Proof.
  intros H. unfold calls. simpl. rewrite omap_app. simpl.
  destruct o; try by rewrite app_nil_r. by destruct (H name arg).
Qed.

Lemma calls_log_call f v s :
  calls (trace (log (ObsCall f v) s)) = calls (trace s) ++ [(f, v)].
Proof. unfold calls. simpl. by rewrite omap_app. Qed.

Lemma calls_finish t err result s :
  calls (trace (finish t err result s)) = calls (trace s).
Proof. apply envs_finish_trace. Qed.

Lemma calls_complete t c s : calls (trace (complete t c s)) = calls (trace s).
Proof. destruct c; apply calls_finish. Qed.

Lemma calls_attach c composite s :
  calls (trace (state_of (attach c composite s))) = calls (trace s).
Proof.
  unfold attach, get_env. munfold. destruct (envs s !! c) as [e|]; [|done].
  destruct (currentTask e) as [t|].
  - pose proof (keeps_thenDo t (Some (ResolveOf composite)) (Some (RejectOf composite)) s)
      as [H _].
    by destruct (thenDo t _ _ s).
  - apply calls_finish.
Qed.

(** The deferred function calls the chosen factory, once, with the chosen
    argument, and calls no other. *)
Lemma calls_compose_tick c firstErr firstResult s e name body arg :
  envs s !! c = Some e -> cancelled e = false -> is_sentinel firstErr = false ->
  chosen e firstErr firstResult = (Some (UserFn name body), arg) ->
  calls (trace (state_of (compose_tick c firstErr firstResult s)))
  = calls (trace s) ++ [(name, arg)].
Proof.
  intros He Hlive Hs Hch.
  rewrite (compose_tick_factory _ _ _ _ _ He Hlive Hs _ _ Hch).
  simpl. munfold. destruct (body arg) as [thrown|[ex|]]; simpl.
  - unfold reject. by rewrite calls_finish, calls_log_call.
  - pose proof (keeps_eval ex (log (ObsCall name arg) s)) as [H _].
    destruct (eval ex _) as [t s2|thrown s2]; cbn [state_of] in *.
    + rewrite calls_attach. simpl. by rewrite H, calls_log_call.
    + unfold reject. by rewrite calls_finish, H, calls_log_call.
  - rewrite calls_attach. simpl. by rewrite <- calls_log_call.
Qed.

(** Without a factory for the outcome, and after a cancellation, the
    deferred function calls none. *)
Lemma calls_compose_tick_none c firstErr firstResult s e arg :
  envs s !! c = Some e ->
  (cancelled e || is_sentinel firstErr)%bool = true
  \/ chosen e firstErr firstResult = (None, arg) ->
  calls (trace (state_of (compose_tick c firstErr firstResult s))) = calls (trace s).
Proof.
  intros He [H|H].
  - rewrite (compose_tick_cancelled _ _ _ _ _ He H). apply calls_finish.
  - destruct (cancelled e || is_sentinel firstErr)%bool eqn:Hc.
    + rewrite (compose_tick_cancelled _ _ _ _ _ He Hc). apply calls_finish.
    + apply orb_false_elim in Hc as [Hlive Hs].
      rewrite (compose_tick_direct _ _ _ _ _ He Hlive Hs _ H). apply calls_finish.
Qed.



Lemma nullish_not_sentinel v : is_nullish v = true -> is_sentinel v = false.
Proof. by destruct v. Qed.

(** The deferred function when the error of the first task is null or
    undefined and there is an [onResolve]. *)
Lemma compose_tick_nullish c firstErr firstResult s e name body :
  envs s !! c = Some e -> cancelled e = false ->
  is_nullish firstErr = true -> onResolve e = Some (UserFn name body) ->
  calls (trace (state_of (compose_tick c firstErr firstResult s)))
  = calls (trace s) ++ [(name, firstResult)].
Proof.
  intros He Hlive Hnull Hres.
  apply (calls_compose_tick _ _ _ _ e name body); try done.
  - by apply nullish_not_sentinel.
  - unfold chosen. by rewrite Hnull, Hres.
Qed.

Lemma pending_nullish s0 s name body g err r :
  tick_pending s0 s (Some (UserFn name body)) g err r -> is_nullish err = true ->
  calls (trace (state_of (run_deferred (ComposeTick (length (envs s0)) err r) s)))
  = calls (trace s0) ++ [(name, r)].
Proof.
  intros (He & _ & _ & Hc & _) Hnull. simpl.
  rewrite (compose_tick_nullish _ _ _ _ _ name body He); try done. by rewrite Hc.
Qed.

Lemma heard_finish_other t t1 err result s :
  t1 <> t -> heard t (trace (finish t1 err result s)) = heard t (trace s).
Proof.
  intros Hne. destruct (tasks s !! t1) as [k|] eqn:Hk; [|by rewrite finish_no_task].
  destruct (finished k) eqn:Hf.
  - rewrite finish_finished; [done|]. unfold outcome. rewrite Hk. simpl. by rewrite Hf.
  - rewrite (finish_running _ _ _ _ _ Hk Hf). simpl.
    destruct (onFinish k) as [l|]; [|done].
    rewrite trace_run_listener. simpl. rewrite heard_app. simpl.
    rewrite decide_False by done. by rewrite app_nil_r.
Qed.



(** ** Cancelling a composite task *)

Lemma envs_finish_other t err result s k c :
  tasks s !! t = Some k -> onFinish k <> Some (ComposeListener c) ->
  envs (finish t err result s) !! c = envs s !! c.
Proof.
  intros Hk Hl. destruct (finished k) eqn:Hf.
  - rewrite finish_finished; [done|]. unfold outcome. rewrite Hk. simpl. by rewrite Hf.
  - rewrite (finish_running _ _ _ _ _ Hk Hf). simpl.
    destruct (onFinish k) as [[c'|cleanup]|]; simpl; try done.
    apply list_lookup_alter_ne. congruence.
Qed.

Lemma tasks_finish_other t err result s t' :
  t' <> t -> tasks (finish t err result s) !! t' = tasks s !! t'.
Proof.
  intros Hne. destruct (tasks s !! t) as [k|] eqn:Hk; [|by rewrite finish_no_task].
  destruct (finished k) eqn:Hf.
  - rewrite finish_finished; [done|]. unfold outcome. rewrite Hk. simpl. by rewrite Hf.
  - rewrite (tasks_finish_running _ _ _ _ _ Hk Hf). by apply list_lookup_insert_ne.
Qed.

(** Cancelling a composite task whose current task runs. *)
Lemma cancel_composite
    (C T : TaskId) (c : EnvId) (s : State) (kC kT : Cell) (e : Env) (aT : Abort) :
  tasks s !! C = Some kC -> finished kC = None ->
  abort kC = Some (CancelComposite c) -> onFinish kC <> Some (ComposeListener c) ->
  envs s !! c = Some e -> currentTask e = Some T -> T <> C ->
  tasks s !! T = Some kT -> finished kT = None -> abort kT = Some aT ->
  exists s',
    cancel C s = Some s'
    /\ outcome C s' = Some (sentinel, VNull)
    /\ outcome T s' = Some (sentinel, VNull)
    /\ match aT with
       | UserAbort _ => aborted (trace s') = aborted (trace s) ++ [C; T]
       | CancelComposite _ =>
           exists rest, aborted (trace s') = aborted (trace s) ++ C :: T :: rest
       end.
Proof.
  intros HkC HfC HaC HlC He Hcur Hne HkT HfT HaT.
  rewrite cancel_unfold, HkC, HfC, HaC. simpl.
  set (s1 := finish C sentinel VNull s).
  set (s2 := upd_env c set_cancelled (log (ObsAbort C) s1)).
  assert (current c s2 = Some T) as ->.
  { unfold current, s2. simpl. rewrite list_lookup_alter_eq.
    unfold s1. rewrite (envs_finish_other _ _ _ _ _ _ HkC HlC), He. simpl. done. }
  assert (tasks s2 !! T = Some kT) as HkT2.
  { unfold s2, s1. simpl. by rewrite tasks_finish_other. }
  assert (outcome C s2 = Some (sentinel, VNull)) as HoC.
  { unfold s2, s1, outcome. simpl.
    change (outcome C (finish C sentinel VNull s) = Some (sentinel, VNull)).
    apply outcome_finish_running. eauto. }
  assert (aborted (trace s2) = aborted (trace s) ++ [C]) as Ha2.
  { unfold s2, s1, aborted. simpl. rewrite omap_app. simpl.
    f_equal. apply envs_finish_trace. }
  pose proof (cancel_cases T s2 kT HkT2) as H. rewrite HfT, HaT in H.
  destruct H as (_ & _ & s' & Hs' & HoT & Hab).
  exists s'. split; [done|]. split; [by eapply cancel_outcome_stable|].
  split; [done|]. destruct aT as [a|c'].
  - by rewrite Hab, Ha2, <- app_assoc.
  - destruct Hab as [rest Hab]. exists rest. by rewrite Hab, Ha2, <- app_assoc.
Qed.

(** The deferred function whose factory starts a task that keeps running:
    that task is, from then on, the current task of the composition. *)
Lemma factory_task_becomes_current s0 s f g err r name body arg b :
  tick_pending s0 s f g err r -> is_sentinel err = false ->
  chosen (mkEnv false None f g (length (tasks s0))) err r = (Some (UserFn name body), arg) ->
  body arg = Returns (Some (TStart [] (Returns (Some b)))) ->
  exists s3,
    run_deferred (ComposeTick (length (envs s0)) err r) s = Ok tt s3
    /\ tasks s3 !! length (tasks s0)
       = Some (mkCell None None (Some (CancelComposite (length (envs s0)))))
    /\ envs s3 !! length (envs s0)
       = Some (mkEnv false (Some (S (length (tasks s0)))) f g (length (tasks s0)))
    /\ tasks s3 !! S (length (tasks s0))
       = Some (mkCell None (Some (ComposeListener (S (length (envs s0)))))
                 (Some (UserAbort b)))
    /\ aborted (trace s3) = aborted (trace s0)
    /\ calls (trace s3) = calls (trace s0) ++ [(name, arg)].
Proof.
  intros (He & HkC & _ & Hcalls & Hab & Hlt & Hle) Hs Hch Hbody. simpl.
  rewrite (compose_tick_factory _ _ _ _ _ He eq_refl Hs _ _ Hch).
  unfold call_factory. munfold. rewrite Hbody. cbn [eval]. rewrite start_user.
  unfold attach, get_env. munfold. cbn [envs upd_env log].
  rewrite list_lookup_alter_eq, He. cbn [fmap option_fmap option_map currentTask set_currentTask].
  erewrite thenDo_fresh; [|simpl; by apply list_lookup_middle|done].
  cbn zeta. cbn [finished started_cell]. eexists. split; [done|].
  simpl. rewrite length_alter, Hle. rewrite <- Hlt.
  split; [|split; [|split; [|split]]].
  - rewrite list_lookup_alter_ne by lia.
    rewrite !lookup_app_l by (rewrite ?length_app; simpl; lia). done.
  - rewrite lookup_app_l by (rewrite length_alter; lia).
    by rewrite list_lookup_alter_eq, He.
  - by rewrite list_lookup_alter_eq, lookup_two.
  - by rewrite aborted_snoc_call.
  - unfold calls in *. rewrite omap_app. simpl. by rewrite Hcalls.
Qed.

(** ** A sub-task reports through a second composition *)

Lemma turns_idle n : forall s, queue s = [] -> turns n s = Ok tt s.
Proof.
  induction n as [|n IH]; intros s Hq; [done|].
  simpl. munfold. unfold turn at 1. rewrite Hq. by apply IH.
Qed.

Lemma turns_add k : forall n s,
  turns (k + n) s
  = match turns k s with Ok _ s' => turns n s' | Threw e s' => Threw e s' end.
Proof.
  induction k as [|k IH]; intros n s; [done|].
  simpl. munfold. destruct (turn s) as [[] s'|e s']; [apply IH|done].
Qed.

(** Once [k] turns have emptied the queue, further turns change nothing. *)
Lemma turns_settled k n s s' :
  turns k s = Ok tt s' -> queue s' = [] -> state_of (turns (k + n) s) = s'.
Proof. intros Hk Hq. by rewrite turns_add, Hk, turns_idle. Qed.

Lemma outcome_attach_fixed c composite s t0 o :
  outcome t0 s = Some o -> outcome t0 (state_of (attach c composite s)) = Some o.
Proof.
  intros Ho. unfold attach, get_env. munfold.
  destruct (envs s !! c) as [e|]; [|done]. destruct (currentTask e) as [t|].
  - apply outcome_Some in Ho as (k & Hk & Hf).
    pose proof (keeps_thenDo t (Some (ResolveOf composite)) (Some (RejectOf composite)) s)
      as [_ K].
    destruct (K t0 k Hk) as (k' & Hk' & Hf' & _).
    destruct (thenDo t _ _ s); simpl in *; apply outcome_Some; exists k';
      split; congruence.
  - by apply outcome_finish_fixed.
Qed.

(** The deferred function of the composition that line 212 makes: when
    the sub-task finished with anything but the sentinel, and that inner
    composition was not cancelled, the composite task gets the outcome of
    the sub-task, a null or undefined error counting as none. *)
Lemma subtask_outcome_reaches_composite c err result s e C :
  envs s !! c = Some e -> cancelled e = false -> is_sentinel err = false ->
  onResolve e = Some (ResolveOf C) -> onReject e = Some (RejectOf C) ->
  (exists k, tasks s !! C = Some k /\ finished k = None) ->
  outcome C (state_of (compose_tick c err result s))
  = Some (if is_nullish err then (VNull, result) else (err, VNull)).
Proof.
  intros He Hlive Hs Hres Hrej Hrun.
  rewrite (compose_tick_factory _ _ _ _ _ He Hlive Hs
             (if is_nullish err then ResolveOf C else RejectOf C)
             (if is_nullish err then result else err))
    by (unfold chosen; rewrite Hres, Hrej; by destruct (is_nullish err)).
  destruct (is_nullish err); simpl; munfold; apply outcome_attach_fixed;
    unfold resolve, reject; by apply outcome_finish_running.
Qed.

(** * The claims *)

(** C1, where the code departs from it.  The sub-task that the factory
    returned has finished, with the error ['cancelled'], the queue has run
    dry, and the composite task (task 1) has no outcome and will never get
    one: the deferred function of the inner composition returned at line
    187 without calling [rejectCompositeTask].  The same program with a
    sub-task that rejects with "E" does reject the composite task with "E",
    two turns later. *)
Theorem cancelled_subtask_strands_composite (n : nat) :
  (let s := state_of (turns (2 + n) stranded_example) in
   outcome 2 s = Some (sentinel, VNull) /\ outcome 1 s = None /\ queue s = []
   /\ calls (trace s) = [(0, VNum 1)])
  /\ (let s := state_of (turns (1 + n) stranded_by_cancel_example) in
      outcome 2 s = Some (sentinel, VNull) /\ outcome 1 s = None /\ queue s = []
      /\ aborted (trace s) = [2])
  /\ (let s := state_of (turns (2 + n) ordinary_failure_example) in
      outcome 2 s = Some (VStr "E", VNull) /\ outcome 1 s = Some (VStr "E", VNull)
      /\ queue s = []).
Proof.
  split; [|split].
  - by rewrite (turns_settled 2 n stranded_example
                  (state_of (turns 2 stranded_example))) by (by vm_compute).
  - by rewrite (turns_settled 1 n stranded_by_cancel_example
                  (state_of (turns 1 stranded_by_cancel_example))) by (by vm_compute).
  - by rewrite (turns_settled 2 n ordinary_failure_example
                  (state_of (turns 2 ordinary_failure_example))) by (by vm_compute).
Qed.

(** C2. Cancelling a running composite task records ['cancelled'] for it
    and forwards to the task that its environment holds as current: while
    the first task runs this is the first task, whose abort function is
    invoked; once the factory has produced a task that is still running it
    is that task, whose abort function is invoked instead.  Only these two
    abort functions run (the one of the composite task, which forwards, and
    the one of the current task) when the current task has one of the
    caller's.  In particular [C = taskA.thenDo(f)] cancelled while taskA runs
    has taskA aborted and finishes with ['cancelled']; cancelled after
    taskA has resolved and the deferred function has run, [f] having started
    a task that runs, it has that task aborted, and not taskA. *)
Theorem cancellation_forwarding :
  (forall (C T : TaskId) (c : EnvId) (s : State) (kC kT : Cell) (e : Env) (aT : Abort),
     tasks s !! C = Some kC -> finished kC = None ->
     abort kC = Some (CancelComposite c) -> onFinish kC <> Some (ComposeListener c) ->
     envs s !! c = Some e -> currentTask e = Some T -> T <> C ->
     tasks s !! T = Some kT -> finished kT = None -> abort kT = Some aT ->
     exists s',
       cancel C s = Some s'
       /\ outcome C s' = Some (sentinel, VNull)
       /\ outcome T s' = Some (sentinel, VNull)
       /\ match aT with
          | UserAbort _ => aborted (trace s') = aborted (trace s) ++ [C; T]
          | CancelComposite _ =>
              exists rest, aborted (trace s') = aborted (trace s) ++ C :: T :: rest
          end)
  /\ (forall (A : TaskId) (s : State) (kA : Cell) (a : nat) (f g : option Factory),
        tasks s !! A = Some kA -> finished kA = None -> onFinish kA = None ->
        abort kA = Some (UserAbort a) ->
        exists s1 s2,
          thenDo A f g s = Ok (length (tasks s)) s1
          /\ cancel (length (tasks s)) s1 = Some s2
          /\ outcome (length (tasks s)) s2 = Some (sentinel, VNull)
          /\ outcome A s2 = Some (sentinel, VNull)
          /\ aborted (trace s2) = aborted (trace s) ++ [length (tasks s); A])
  /\ (forall (A : TaskId) (s : State) (kA : Cell) (a : nat) name body g v (b : nat),
        tasks s !! A = Some kA -> finished kA = None -> onFinish kA = None ->
        abort kA = Some (UserAbort a) ->
        body v = Returns (Some (TStart [] (Returns (Some b)))) ->
        exists s1 s3 s4,
          thenDo A (Some (UserFn name body)) g s = Ok (length (tasks s)) s1
          /\ outcome A (resolve A v s1) = Some (VNull, v)
          /\ run_deferred (ComposeTick (length (envs s)) VNull v) (resolve A v s1)
             = Ok tt s3
          /\ current (length (envs s)) s3 = Some (S (length (tasks s)))
          /\ cancel (length (tasks s)) s3 = Some s4
          /\ outcome (length (tasks s)) s4 = Some (sentinel, VNull)
          /\ outcome (S (length (tasks s))) s4 = Some (sentinel, VNull)
          /\ aborted (trace s4)
             = aborted (trace s) ++ [length (tasks s); S (length (tasks s))]).
Proof.
  split; [exact cancel_composite|]. split.
  - intros A s kA a f g HkA HfA HlA HaA.
    rewrite (thenDo_fresh A f g s kA HkA HlA), HfA. cbn zeta.
    pose proof (lookup_lt_Some _ _ _ HkA) as Hlt.
    set (c := length (envs s)). set (C := length (tasks s)) in *.
    set (s1 := upd_task A (set_onFinish (ComposeListener c)) (composing A f g s)).
    destruct (cancel_composite C A c s1
                (mkCell None None (Some (CancelComposite c)))
                (set_onFinish (ComposeListener c) kA)
                (mkEnv false (Some A) f g C) (UserAbort a))
      as (s2 & Hs2 & HoC & HoA & Hab); try done.
    + unfold s1. simpl. rewrite list_lookup_alter_ne by lia. by apply list_lookup_middle.
    + unfold s1. simpl. by apply list_lookup_middle.
    + lia.
    + unfold s1. simpl. rewrite list_lookup_alter_eq.
      by rewrite (lookup_app_l_Some _ _ _ _ HkA).
    + by exists s1, s2.
  - intros A s kA a name body g v b HkA HfA HlA HaA Hbody.
    destruct (thenDo_running_pending A (Some (UserFn name body)) g s kA HkA HlA HfA)
      as (s1 & Hs1 & Hp).
    destruct (Hp VNull v) as [Hpend HoA].
    destruct (factory_task_becomes_current s (resolve A v s1) _ _ _ _ name body v b
                Hpend eq_refl eq_refl Hbody)
      as (s3 & Hs3 & HkC & He & HkT & Hab & _).
    destruct (cancel_composite _ _ _ s3 _ _ _ (UserAbort b) HkC eq_refl eq_refl
                ltac:(done) He eq_refl ltac:(lia) HkT eq_refl eq_refl)
      as (s4 & Hs4 & HoC & HoT & Hab4).
    exists s1, s3, s4. repeat (split; [done|]).
    split; [unfold current; by rewrite He|]. repeat (split; [done|]).
    by rewrite Hab4, Hab.
Qed.

Lemma cancellation_forwarding_witness :
  (tasks first_running_example !! 1 = Some (mkCell None None (Some (CancelComposite 0)))
   /\ envs first_running_example !! 0
      = Some (mkEnv false (Some 0) (Some starting_factory) None 1)
   /\ tasks first_running_example !! 0
      = Some (mkCell None (Some (ComposeListener 0)) (Some (UserAbort 7)))
   /\ exists s',
        cancel 1 first_running_example = Some s'
        /\ outcome 1 s' = Some (sentinel, VNull)
        /\ outcome 0 s' = Some (sentinel, VNull)
        /\ aborted (trace s') = aborted (trace first_running_example) ++ [1; 0])
  /\ (tasks second_running_example !! 1 = Some (mkCell None None (Some (CancelComposite 0)))
      /\ envs second_running_example !! 0
         = Some (mkEnv false (Some 2) (Some starting_factory) None 1)
      /\ tasks second_running_example !! 2
         = Some (mkCell None (Some (ComposeListener 1)) (Some (UserAbort 8)))
      /\ outcome 0 second_running_example = Some (VNull, VNum 1)
      /\ exists s',
           cancel 1 second_running_example = Some s'
           /\ outcome 1 s' = Some (sentinel, VNull)
           /\ outcome 2 s' = Some (sentinel, VNull)
           /\ aborted (trace s') = aborted (trace second_running_example) ++ [1; 2])
  /\ (tasks running_example !! 0 = Some (mkCell None None (Some (UserAbort 7)))
      /\ exists s1 s2,
           thenDo 0 (Some starting_factory) None running_example = Ok 1 s1
           /\ cancel 1 s1 = Some s2
           /\ outcome 1 s2 = Some (sentinel, VNull)
           /\ outcome 0 s2 = Some (sentinel, VNull)
           /\ aborted (trace s2) = aborted (trace running_example) ++ [1; 0])
  /\ (tasks running_example !! 0 = Some (mkCell None None (Some (UserAbort 7)))
      /\ exists s1 s3 s4,
           thenDo 0 (Some starting_factory) None running_example = Ok 1 s1
           /\ outcome 0 (resolve 0 (VNum 1) s1) = Some (VNull, VNum 1)
           /\ run_deferred (ComposeTick 0 VNull (VNum 1)) (resolve 0 (VNum 1) s1) = Ok tt s3
           /\ current 0 s3 = Some 2
           /\ cancel 1 s3 = Some s4
           /\ outcome 1 s4 = Some (sentinel, VNull)
           /\ outcome 2 s4 = Some (sentinel, VNull)
           /\ aborted (trace s4) = aborted (trace running_example) ++ [1; 2]).
Proof.
  split; [|split; [|split]].
  - do 3 (split; [reflexivity|]).
    apply (proj1 cancellation_forwarding 1 0 0 first_running_example
             (mkCell None None (Some (CancelComposite 0)))
             (mkCell None (Some (ComposeListener 0)) (Some (UserAbort 7)))
             (mkEnv false (Some 0) (Some starting_factory) None 1) (UserAbort 7));
      (reflexivity || (simpl; discriminate) || lia).
  - do 4 (split; [reflexivity|]).
    apply (proj1 cancellation_forwarding 1 2 0 second_running_example
             (mkCell None None (Some (CancelComposite 0)))
             (mkCell None (Some (ComposeListener 1)) (Some (UserAbort 8)))
             (mkEnv false (Some 2) (Some starting_factory) None 1) (UserAbort 8));
      (reflexivity || (simpl; discriminate) || lia).
  - split; [reflexivity|].
    exact (proj1 (proj2 cancellation_forwarding) 0 running_example _ 7
             (Some starting_factory) None eq_refl eq_refl eq_refl eq_refl).
  - split; [reflexivity|].
    exact (proj2 (proj2 cancellation_forwarding) 0 running_example _ 7
             0 (fun _ => Returns (Some (TStart [] (Returns (Some 8))))) None (VNum 1) 8
             eq_refl eq_refl eq_refl eq_refl eq_refl).
Defined.

(** C3. For every task and every sequence of calls to its [resolve] and
    [reject] callbacks, the outcome is set at most once: the first call
    fixes the recorded pair (unless one was recorded already, which then
    stays), and the calls after it change nothing. *)
Theorem outcome_set_once (t : TaskId) (s : State) (c : Completion) (cs : list Completion) :
  t < length (tasks s) ->
  outcome t (complete t c s) = Some (default (completion_pair c) (outcome t s))
  /\ completes t (c :: cs) s = complete t c s
  /\ outcome t (completes t (c :: cs) s) = outcome t (complete t c s).
Proof.
  intros Ht. rewrite completes_after_first. split; [|done].
  destruct (lookup_lt_is_Some_2 _ _ Ht) as [k Hk].
  destruct (finished k) as [o|] eqn:Hf.
  - assert (outcome t s = Some o) as Ho by (apply outcome_Some; eauto).
    rewrite complete_finished; rewrite Ho; done.
  - assert (outcome t s = None) as -> by (unfold outcome; by rewrite Hk).
    simpl. apply outcome_complete_running. eauto.
Qed.

Lemma outcome_set_once_witness :
  0 < length (tasks (alloc initial))
  /\ outcome 0 (complete 0 (CallResolve (VNum 1)) (alloc initial)) = Some (VNull, VNum 1)
  /\ completes 0 [CallResolve (VNum 1); CallReject (VStr "late"); CallResolve (VNum 2)]
       (alloc initial)
     = complete 0 (CallResolve (VNum 1)) (alloc initial)
  /\ outcome 0 (completes 0 [CallResolve (VNum 1); CallReject (VStr "late");
                             CallResolve (VNum 2)] (alloc initial))
     = outcome 0 (complete 0 (CallResolve (VNum 1)) (alloc initial)).
Proof.
  split; [simpl; lia|].
  apply (outcome_set_once 0 (alloc initial) (CallResolve (VNum 1))
           [CallReject (VStr "late"); CallResolve (VNum 2)]).
  simpl; lia.
Defined.

(** C4. [cancel()] on a task still running records the outcome
    (['cancelled'], [null]) and then invokes the abort function, if the
    starter gave one; on a task that has finished it does nothing: the
    store, with the outcome and the record of aborts, is the same. *)
Theorem cancel_spec (t : TaskId) (s : State) (k : Cell) :
  tasks s !! t = Some k ->
  (forall o, finished k = Some o ->
     cancel t s = Some s
     /\ forall s', cancel t s = Some s' ->
          outcome t s' = Some o /\ aborted (trace s') = aborted (trace s))
  /\ (finished k = None ->
      outcome t (finish t sentinel VNull s) = Some (sentinel, VNull)
      /\ cancel t s = invoke_abort cancel t (abort k) (finish t sentinel VNull s)
      /\ exists s', cancel t s = Some s'
         /\ outcome t s' = Some (sentinel, VNull)
         /\ match abort k with
            | None => aborted (trace s') = aborted (trace s)
            | Some (UserAbort _) => aborted (trace s') = aborted (trace s) ++ [t]
            | Some (CancelComposite _) =>
                exists rest, aborted (trace s') = aborted (trace s) ++ t :: rest
            end).
Proof.
  intros Hk. pose proof (cancel_cases t s k Hk) as H. split.
  - intros o Hf. rewrite Hf in H. split; [done|].
    intros s' Hs'. rewrite H in Hs'. injection Hs' as <-.
    split; [|done]. apply outcome_Some. eauto.
  - intros Hf. by rewrite Hf in H.
Qed.

Lemma cancel_spec_witness :
  (tasks running_example !! 0 = Some (mkCell None None (Some (UserAbort 7)))
   /\ outcome 0 (finish 0 sentinel VNull running_example) = Some (sentinel, VNull)
   /\ cancel 0 running_example
      = invoke_abort cancel 0 (Some (UserAbort 7)) (finish 0 sentinel VNull running_example)
   /\ exists s', cancel 0 running_example = Some s'
      /\ outcome 0 s' = Some (sentinel, VNull)
      /\ aborted (trace s') = aborted (trace running_example) ++ [0])
  /\ (tasks finished_example !! 0 = Some (mkCell (Some (VNull, VNum 5)) None None)
      /\ cancel 0 finished_example = Some finished_example
      /\ forall s', cancel 0 finished_example = Some s' ->
           outcome 0 s' = Some (VNull, VNum 5)
           /\ aborted (trace s') = aborted (trace finished_example)).
Proof.
  split; (split; [reflexivity|]).
  - exact (proj2 (cancel_spec 0 running_example _ eq_refl) eq_refl).
  - exact (proj1 (cancel_spec 0 finished_example _ eq_refl) _ eq_refl).
Defined.

(** C5. The continuation logic of [taskA.thenDo(f)] runs on a later turn
    of the scheduler only.  No factory is called by [thenDo], by the
    construction of a task by any caller program, by a completion of a task
    or by a cancellation; also when taskA resolved during its own
    construction, [thenDo] returns with the deferred function in the queue and
    [f] not yet called, and [f] is called when that function runs. *)
Theorem continuation_is_deferred :
  (forall t f g s, calls (trace (state_of (thenDo t f g s))) = calls (trace s))
  /\ (forall e s, calls (trace (state_of (eval e s))) = calls (trace s))
  /\ (forall t c s, calls (trace (complete t c s)) = calls (trace s))
  /\ (forall t s, exists s', cancel t s = Some s' /\ calls (trace s') = calls (trace s))
  /\ (forall v name body g s, exists s',
        (t ← withValue v; thenDo t (Some (UserFn name body)) g) s
        = Ok (S (length (tasks s))) s'
        /\ calls (trace s') = calls (trace s)
        /\ queue s' = queue s ++ [ComposeTick (length (envs s)) VNull v]
        /\ calls (trace (state_of (run_deferred (ComposeTick (length (envs s)) VNull v) s')))
           = calls (trace s) ++ [(name, v)]).
Proof.
  split; [intros; apply keeps_thenDo|]. split; [intros; apply keeps_eval|].
  split; [intros; apply calls_complete|]. split.
  - intros t s. destruct (cancel_total t s) as [s' Hs']. exists s'.
    split; [done|by eapply cancel_calls].
  - intros v name body g s. unfold withValue. munfold. rewrite start_user.
    erewrite thenDo_fresh; [|simpl; by apply list_lookup_middle|done].
    simpl. eexists. split; [by rewrite length_app, Nat.add_1_r|].
    split; [unfold calls; simpl; rewrite omap_app; simpl; by rewrite app_nil_r|].
    split; [done|].
    rewrite (calls_compose_tick _ _ _ _
               (set_currentTask None
                  (mkEnv false (Some (length (tasks s))) (Some (UserFn name body)) g
                     (length (tasks s ++ [started_cell [CallResolve v] (Returns None)]))))
               name body v); [| |done..].
    + unfold calls. simpl. rewrite omap_app. simpl. by rewrite app_nil_r.
    + simpl. rewrite list_lookup_alter_eq, list_lookup_middle; done.
Qed.

(** C6. A value thrown by the starter given to [Task.start] does not leave
    [Task.start]: a task is returned, and the value thrown was passed to
    its [reject]; a starter that only throws "boom" gives a task with the
    outcome ("boom", [null]), which is what a listener set on it hears.  A
    value thrown by the continuation factory does not leave the deferred
    function either: it is passed to [reject] of the composite task, whose
    outcome it becomes when that task was still running, as it is for
    [taskA.thenDo(f, g)] when its deferred function runs. *)
Theorem thrown_values_become_rejections :
  (forall d s, exists s', start d s = Ok (length (tasks s)) s')
  /\ (forall calls thrown s,
        start (UserStarter calls (Throws thrown)) s
        = Ok (length (tasks s))
             (reject (length (tasks s)) thrown
                (completes (length (tasks s)) calls (alloc s))))
  /\ (forall thrown s,
        outcome (length (tasks s)) (state_of (start (UserStarter [] (Throws thrown)) s))
        = Some (thrown, VNull))
  /\ (forall s f g, exists s',
        (t ← start (UserStarter [] (Throws (VStr "boom"))); thenDo t f g) s
        = Ok (S (length (tasks s))) s'
        /\ trace s' = trace s ++ [ObsListener (length (tasks s)) (VStr "boom") VNull])
  /\ (forall c firstErr firstResult s e f arg thrown s1,
        envs s !! c = Some e -> cancelled e = false -> is_sentinel firstErr = false ->
        chosen e firstErr firstResult = (Some f, arg) ->
        call_factory f arg s = Threw thrown s1 ->
        compose_tick c firstErr firstResult s = Ok tt (reject (compositeTask e) thrown s1)
        /\ ((exists k, tasks s !! compositeTask e = Some k /\ finished k = None) ->
            outcome (compositeTask e) (reject (compositeTask e) thrown s1)
            = Some (thrown, VNull)))
  /\ (forall A s kA f g err result name body arg thrown,
        tasks s !! A = Some kA -> onFinish kA = None -> finished kA = Some (err, result) ->
        is_sentinel err = false ->
        chosen (mkEnv false None f g (length (tasks s))) err result
        = (Some (UserFn name body), arg) ->
        body arg = Throws thrown ->
        exists s1 s',
          thenDo A f g s = Ok (length (tasks s)) s1
          /\ run_deferred (ComposeTick (length (envs s)) err result) s1 = Ok tt s'
          /\ outcome (length (tasks s)) s' = Some (thrown, VNull)).
Proof.
  split; [apply start_returns|]. split; [apply start_throws|].
  split; [|split; [|split]].
  - intros thrown s. rewrite start_user. unfold outcome. simpl.
    by rewrite list_lookup_middle.
  - intros s f g. munfold. rewrite start_user.
    erewrite thenDo_fresh; [|simpl; by apply list_lookup_middle|done].
    simpl. eexists. split; [by rewrite length_app, Nat.add_1_r|done].
  - exact compose_tick_catches.
  - intros A s kA f g err result name body arg thrown Hk Hl Hf Hs Hch Hbody.
    destruct (thenDo_finished_pending A f g s kA err result Hk Hl Hf)
      as (s1 & Hs1 & He & HkC & _).
    assert (call_factory (UserFn name body) arg s1
            = Threw thrown (log (ObsCall name arg) s1)) as Hthrow
      by (simpl; munfold; by rewrite Hbody).
    destruct (compose_tick_catches _ _ _ _ _ _ _ _ _ He eq_refl Hs Hch Hthrow)
      as [Htick Hout].
    exists s1. eexists. split; [done|]. split; [exact Htick|].
    apply Hout. eauto.
Qed.

Lemma thrown_values_become_rejections_witness :
  (envs thrower_example !! 0 = Some (mkEnv false None (Some thrower) None 1)
   /\ is_sentinel VNull = false
   /\ chosen (mkEnv false None (Some thrower) None 1) VNull (VNum 5)
      = (Some thrower, VNum 5)
   /\ call_factory thrower (VNum 5) thrower_example
      = Threw (VStr "bad") (log (ObsCall 0 (VNum 5)) thrower_example)
   /\ tasks thrower_example !! 1 = Some (mkCell None None (Some (CancelComposite 0)))
   /\ compose_tick 0 VNull (VNum 5) thrower_example
      = Ok tt (reject 1 (VStr "bad") (log (ObsCall 0 (VNum 5)) thrower_example))
   /\ outcome 1 (reject 1 (VStr "bad") (log (ObsCall 0 (VNum 5)) thrower_example))
      = Some (VStr "bad", VNull))
  /\ (tasks finished_example !! 0 = Some (mkCell (Some (VNull, VNum 5)) None None)
      /\ exists s1 s',
           thenDo 0 (Some thrower) None finished_example = Ok 1 s1
           /\ run_deferred (ComposeTick 0 VNull (VNum 5)) s1 = Ok tt s'
           /\ outcome 1 s' = Some (VStr "bad", VNull)).
Proof.
  split.
  - do 5 (split; [reflexivity|]).
    destruct (proj1 (proj2 (proj2 (proj2 (proj2 thrown_values_become_rejections))))
                0 VNull (VNum 5) thrower_example (mkEnv false None (Some thrower) None 1)
                thrower (VNum 5) (VStr "bad") (log (ObsCall 0 (VNum 5)) thrower_example)
                eq_refl eq_refl eq_refl eq_refl eq_refl) as [Htick Hout].
    split; [exact Htick|].
    apply Hout. exists (mkCell None None (Some (CancelComposite 0))).
    split; reflexivity.
  - split; [reflexivity|].
    exact (proj2 (proj2 (proj2 (proj2 (proj2 thrown_values_become_rejections))))
             0 finished_example _ (Some thrower) None VNull (VNum 5)
             0 (fun _ => Throws (VStr "bad")) (VNum 5) (VStr "bad")
             eq_refl eq_refl eq_refl eq_refl eq_refl eq_refl).
Defined.






(** C9. A task rejected with [null] or [undefined] is taken for a success
    by the sequencer, which tests [firstErr == null]: the deferred function
    calls [onResolve], with the stored result, and calls no other factory.
    The stored result is [null], since [reject(err)] is
    [finish(err, null)].  So it is when the starter rejects during the
    construction of the task, and when the task is rejected after
    [thenDo]. *)
Theorem nullish_error_counts_as_success :
  (forall c firstErr firstResult s e name body,
     envs s !! c = Some e -> cancelled e = false ->
     is_nullish firstErr = true -> onResolve e = Some (UserFn name body) ->
     calls (trace (state_of (compose_tick c firstErr firstResult s)))
     = calls (trace s) ++ [(name, firstResult)])
  /\ (forall err ending name body g s,
        is_nullish err = true ->
        exists s',
          (t ← start (UserStarter [CallReject err] ending);
           thenDo t (Some (UserFn name body)) g) s
          = Ok (S (length (tasks s))) s'
          /\ outcome (length (tasks s)) s' = Some (err, VNull)
          /\ queue s' = queue s ++ [ComposeTick (length (envs s)) err VNull]
          /\ calls (trace (state_of
                (run_deferred (ComposeTick (length (envs s)) err VNull) s')))
             = calls (trace s) ++ [(name, VNull)])
  /\ (forall A s kA name body g err,
        tasks s !! A = Some kA -> onFinish kA = None -> finished kA = None ->
        is_nullish err = true ->
        exists s1,
          thenDo A (Some (UserFn name body)) g s = Ok (length (tasks s)) s1
          /\ outcome A (reject A err s1) = Some (err, VNull)
          /\ queue (reject A err s1) = queue s ++ [ComposeTick (length (envs s)) err VNull]
          /\ calls (trace (state_of
                (run_deferred (ComposeTick (length (envs s)) err VNull) (reject A err s1))))
             = calls (trace s) ++ [(name, VNull)]).
Proof.
  split; [exact compose_tick_nullish|]. split.
  - intros err ending name body g s Hnull. munfold. rewrite start_user.
    set (sa := mkState (tasks s ++ [started_cell [CallReject err] ending])
                 (envs s) (queue s) (trace s)).
    destruct (thenDo_finished_pending (length (tasks s)) (Some (UserFn name body)) g sa
                (started_cell [CallReject err] ending) err VNull)
      as (s' & Hs' & Hpend); [by apply list_lookup_middle|done|done|].
    assert (length (tasks sa) = S (length (tasks s))) as Hlen
      by (unfold sa; simpl; rewrite length_app; simpl; lia).
    exists s'. rewrite <- Hlen. split; [done|].
    pose proof (keeps_thenDo (length (tasks s)) (Some (UserFn name body)) g sa) as [_ K].
    rewrite Hs' in K. simpl in K.
    destruct (K (length (tasks s)) (started_cell [CallReject err] ending))
      as (k' & Hk' & Hf' & _); [by apply list_lookup_middle|].
    split; [apply outcome_Some; eauto|].
    split; [apply Hpend|]. by apply (pending_nullish sa _ name body g).
  - intros A s kA name body g err Hk Hl Hf Hnull.
    destruct (thenDo_running_pending A (Some (UserFn name body)) g s kA Hk Hl Hf)
      as (s1 & Hs1 & Hp).
    destruct (Hp err VNull) as [Hpend Hout].
    exists s1. split; [done|]. split; [done|]. split; [apply Hpend|].
    by apply (pending_nullish s _ name body g).
Qed.

Lemma nullish_error_counts_as_success_witness :
  (envs null_rejection_example !! 0
   = Some (mkEnv false None (Some onResolve_example) (Some onReject_example) 1)
   /\ queue null_rejection_example = [ComposeTick 0 VNull VNull]
   /\ calls (trace (state_of (compose_tick 0 VNull VNull null_rejection_example)))
      = calls (trace null_rejection_example) ++ [(1, VNull)])
  /\ (is_nullish VUndefined = true
      /\ exists s',
           (t ← start (UserStarter [CallReject VUndefined] (Returns None));
            thenDo t (Some onResolve_example) (Some onReject_example)) initial
           = Ok 1 s'
           /\ outcome 0 s' = Some (VUndefined, VNull)
           /\ queue s' = [ComposeTick 0 VUndefined VNull]
           /\ calls (trace (state_of (run_deferred (ComposeTick 0 VUndefined VNull) s')))
              = [(1, VNull)])
  /\ (tasks running_example !! 0 = Some (mkCell None None (Some (UserAbort 7)))
      /\ exists s1,
           thenDo 0 (Some onResolve_example) (Some onReject_example) running_example
           = Ok 1 s1
           /\ outcome 0 (reject 0 VNull s1) = Some (VNull, VNull)
           /\ queue (reject 0 VNull s1) = [ComposeTick 0 VNull VNull]
           /\ calls (trace (state_of
                 (run_deferred (ComposeTick 0 VNull VNull) (reject 0 VNull s1))))
              = [(1, VNull)]).
Proof.
  split; [|split].
  - do 2 (split; [reflexivity|]).
    exact (proj1 nullish_error_counts_as_success 0 VNull VNull null_rejection_example
             (mkEnv false None (Some onResolve_example) (Some onReject_example) 1)
             1 (fun _ => Returns None) eq_refl eq_refl eq_refl eq_refl).
  - split; [reflexivity|].
    exact (proj1 (proj2 nullish_error_counts_as_success) VUndefined (Returns None)
             1 (fun _ => Returns None) (Some onReject_example) initial eq_refl).
  - split; [reflexivity|].
    exact (proj2 (proj2 nullish_error_counts_as_success) 0 running_example _
             1 (fun _ => Returns None) (Some onReject_example) VNull
             eq_refl eq_refl eq_refl eq_refl).
Defined.

(** C10. A starter that first calls [resolve(v)] or [reject(e)], then makes
    whatever further calls, and then throws leaves a task whose outcome is
    that first completion; the value thrown is caught and is not the error
    of the task. *)
Theorem first_completion_survives_throw
    (s : State) (c : Completion) (cs : list Completion) (thrown : Val) :
  exists s',
    start (UserStarter (c :: cs) (Throws thrown)) s = Ok (length (tasks s)) s'
    /\ outcome (length (tasks s)) s' = Some (completion_pair c)
    /\ trace s' = trace s /\ queue s' = queue s.
Proof.
  rewrite start_user. eexists. split; [done|]. split; [|done].
  unfold outcome. simpl. by rewrite list_lookup_middle.
Qed.

(** * Further properties of the code *)

(** ** A composition, from [thenDo] to its deferred function *)

(** [taskA.thenDo(f, g)] on a task without a listener, and then a call to
    a callback of taskA, which counts only when taskA had not finished
    before: in the store that results, the deferred function is pending with
    the outcome of taskA. *)
Lemma thenDo_pending A f g s kA c0 :
  tasks s !! A = Some kA -> onFinish kA = None ->
  exists s1, thenDo A f g s = Ok (length (tasks s)) s1
    /\ outcome A (complete A c0 s1) = Some (default (completion_pair c0) (finished kA))
    /\ tick_pending s (complete A c0 s1) f g
         (default (completion_pair c0) (finished kA)).1
         (default (completion_pair c0) (finished kA)).2.
Proof.
  intros Hk Hl. destruct (finished kA) as [[err r]|] eqn:Hf.
  - destruct (thenDo_finished_pending A f g s kA err r Hk Hl Hf) as (s1 & Hs1 & Hp).
    pose proof (keeps_thenDo A f g s) as [_ K]. rewrite Hs1 in K.
    destruct (K A kA Hk) as (k' & Hk' & Hf' & _).
    assert (outcome A s1 = Some (err, r)) as Ho
      by (apply outcome_Some; exists k'; split; [done|congruence]).
    exists s1. split; [done|]. rewrite complete_finished by (by rewrite Ho). done.
  - destruct (thenDo_running_pending A f g s kA Hk Hl Hf) as (s1 & Hs1 & Hp).
    exists s1. split; [done|].
    destruct c0 as [v|e0]; simpl;
      [destruct (Hp VNull v)|destruct (Hp e0 VNull)]; by split.
Qed.

Lemma pending_resolves_directly s0 s g err r :
  tick_pending s0 s None g err r -> is_nullish err = true ->
  exists s', run_deferred (ComposeTick (length (envs s0)) err r) s = Ok tt s'
    /\ outcome (length (tasks s0)) s' = Some (VNull, r)
    /\ calls (trace s') = calls (trace s0).
Proof.
  intros (He & Hk & _ & Hc & _) Hnull. simpl.
  rewrite (compose_tick_direct _ _ _ _ _ He eq_refl (nullish_not_sentinel _ Hnull) r)
    by (unfold chosen; by rewrite Hnull).
  rewrite Hnull. eexists. split; [done|]. split.
  - apply outcome_finish_running. eauto.
  - by rewrite calls_finish.
Qed.

(** X1. [taskA.thenDo(undefined, g)]: when taskA succeeds, which for the
    code means that its error is null or undefined, the deferred function
    resolves the composite task with the result of taskA and calls no
    factory, [g] included; the error of the composite task is [null] also
    when that of taskA was [undefined].  The outcome of taskA is the one it
    had when [thenDo] was called or, if it was running, the one that a later
    call [c0] to its callbacks gives it. *)
Theorem success_passes_through A s kA g c0 err r :
  tasks s !! A = Some kA -> onFinish kA = None ->
  default (completion_pair c0) (finished kA) = (err, r) ->
  is_nullish err = true ->
  exists s1 s',
    thenDo A None g s = Ok (length (tasks s)) s1
    /\ outcome A (complete A c0 s1) = Some (err, r)
    /\ run_deferred (ComposeTick (length (envs s)) err r) (complete A c0 s1) = Ok tt s'
    /\ outcome (length (tasks s)) s' = Some (VNull, r)
    /\ calls (trace s') = calls (trace s).
Proof.
  intros Hk Hl Ho Hnull.
  destruct (thenDo_pending A None g s kA c0 Hk Hl) as (s1 & Hs1 & HoA & Hpend).
  rewrite Ho in HoA, Hpend.
  destruct (pending_resolves_directly _ _ _ _ _ Hpend Hnull) as (s' & Hrun & HoC & Hc).
  by exists s1, s'.
Qed.

Lemma success_passes_through_witness :
  tasks running_example !! 0 = Some (mkCell None None (Some (UserAbort 7)))
  /\ exists s1 s',
       thenDo 0 None (Some onReject_example) running_example = Ok 1 s1
       /\ outcome 0 (complete 0 (CallReject VUndefined) s1) = Some (VUndefined, VNull)
       /\ run_deferred (ComposeTick 0 VUndefined VNull)
            (complete 0 (CallReject VUndefined) s1) = Ok tt s'
       /\ outcome 1 s' = Some (VNull, VNull)
       /\ calls (trace s') = calls (trace running_example).
Proof.
  split; [reflexivity|].
  exact (success_passes_through 0 running_example _ (Some onReject_example)
           (CallReject VUndefined) VUndefined VNull eq_refl eq_refl eq_refl eq_refl).
Defined.

Lemma pending_empty s0 s f g err r name body arg :
  tick_pending s0 s f g err r -> is_sentinel err = false ->
  chosen (mkEnv false None f g (length (tasks s0))) err r
  = (Some (UserFn name body), arg) ->
  body arg = Returns None ->
  exists s', run_deferred (ComposeTick (length (envs s0)) err r) s = Ok tt s'
    /\ outcome (length (tasks s0)) s' = Some (VNull, VUndefined)
    /\ current (length (envs s0)) s' = None
    /\ calls (trace s') = calls (trace s0) ++ [(name, arg)].
Proof.
  intros (He & Hk & _ & Hc & _) Hs Hch Hbody. simpl.
  rewrite (compose_tick_factory _ _ _ _ _ He eq_refl Hs _ _ Hch).
  unfold call_factory. munfold. rewrite Hbody.
  unfold attach, get_env. munfold. cbn [envs upd_env log].
  rewrite list_lookup_alter_eq, He.
  cbn [fmap option_fmap option_map currentTask set_currentTask compositeTask].
  eexists. split; [done|]. split; [|split].
  - apply outcome_finish_running. eauto.
  - unfold current, resolve.
    rewrite (envs_finish_other _ _ _ _
               (mkCell None None (Some (CancelComposite (length (envs s0)))))) by done.
    simpl. by rewrite list_lookup_alter_eq, He.
  - unfold resolve. rewrite calls_finish. cbn [trace upd_env].
    by rewrite calls_log_call, Hc.
Qed.

(** X2. When the factory that the outcome of taskA selects returns nothing,
    the deferred function resolves the composite task with [undefined]; the
    factory was called once, with the result of taskA if taskA succeeded and
    with its error otherwise, and no task is current any more. *)
Theorem empty_continuation_resolves_undefined A s kA f g c0 err r name body arg :
  tasks s !! A = Some kA -> onFinish kA = None ->
  default (completion_pair c0) (finished kA) = (err, r) ->
  is_sentinel err = false ->
  chosen (mkEnv false None f g (length (tasks s))) err r
  = (Some (UserFn name body), arg) ->
  body arg = Returns None ->
  exists s1 s',
    thenDo A f g s = Ok (length (tasks s)) s1
    /\ run_deferred (ComposeTick (length (envs s)) err r) (complete A c0 s1) = Ok tt s'
    /\ outcome (length (tasks s)) s' = Some (VNull, VUndefined)
    /\ current (length (envs s)) s' = None
    /\ calls (trace s') = calls (trace s) ++ [(name, arg)].
Proof.
  intros Hk Hl Ho Hs Hch Hbody.
  destruct (thenDo_pending A f g s kA c0 Hk Hl) as (s1 & Hs1 & _ & Hpend).
  rewrite Ho in Hpend.
  destruct (pending_empty _ _ _ _ _ _ _ _ _ Hpend Hs Hch Hbody) as (s' & H).
  by exists s1, s'.
Qed.

Lemma empty_continuation_resolves_undefined_witness :
  tasks rejected_alone_example !! 0 = Some (mkCell (Some (VStr "E", VNull)) None None)
  /\ exists s1 s',
       thenDo 0 (Some onResolve_example) (Some onReject_example) rejected_alone_example
       = Ok 1 s1
       /\ run_deferred (ComposeTick 0 (VStr "E") VNull)
            (complete 0 (CallResolve (VNum 4)) s1) = Ok tt s'
       /\ outcome 1 s' = Some (VNull, VUndefined)
       /\ current 0 s' = None
       /\ calls (trace s') = calls (trace rejected_alone_example) ++ [(2, VStr "E")].
Proof.
  split; [reflexivity|].
  exact (empty_continuation_resolves_undefined 0 rejected_alone_example _
           (Some onResolve_example) (Some onReject_example) (CallResolve (VNum 4))
           (VStr "E") VNull 2 (fun _ => Returns None) (VStr "E")
           eq_refl eq_refl eq_refl eq_refl eq_refl eq_refl).
Defined.

(** ** Cancellations that the deferred function finds *)

Lemma pending_cancelled s0 s f g err r :
  tick_pending s0 s f g err r ->
  exists s2,
    cancel (length (tasks s0)) s = Some s2
    /\ outcome (length (tasks s0)) s2 = Some (sentinel, VNull)
    /\ aborted (trace s2) = aborted (trace s0) ++ [length (tasks s0)]
    /\ run_deferred (ComposeTick (length (envs s0)) err r) s2 = Ok tt s2
    /\ calls (trace s2) = calls (trace s0).
Proof.
  intros (He & Hk & _ & Hc & Ha & _).
  rewrite cancel_unfold, Hk. simpl.
  rewrite (finish_running _ _ _ _ _ Hk eq_refl). simpl.
  unfold current. simpl. rewrite list_lookup_alter_eq, He. simpl.
  eexists. split; [done|].
  split; [|split; [|split]].
  - unfold outcome. simpl. by rewrite list_lookup_alter_eq, Hk.
  - unfold aborted in *. simpl. rewrite omap_app. simpl. by rewrite Ha.
  - simpl. erewrite compose_tick_cancelled;
      [|simpl; by rewrite list_lookup_alter_eq, He|done].
    unfold reject. rewrite finish_finished; [done|].
    unfold outcome. simpl. by rewrite list_lookup_alter_eq, Hk.
  - simpl. unfold calls in *. rewrite omap_app. simpl. by rewrite app_nil_r.
Qed.

(** X3. A composite task cancelled after taskA has finished and before the
    deferred function runs: ['cancelled'] is recorded for it, only its own
    abort function runs (no task is current, so nothing is forwarded), and
    the deferred function then calls neither factory and leaves the store as
    it is. *)
Theorem cancel_before_turn A s kA f g c0 err r :
  tasks s !! A = Some kA -> onFinish kA = None ->
  default (completion_pair c0) (finished kA) = (err, r) ->
  exists s1 s2,
    thenDo A f g s = Ok (length (tasks s)) s1
    /\ cancel (length (tasks s)) (complete A c0 s1) = Some s2
    /\ outcome (length (tasks s)) s2 = Some (sentinel, VNull)
    /\ aborted (trace s2) = aborted (trace s) ++ [length (tasks s)]
    /\ run_deferred (ComposeTick (length (envs s)) err r) s2 = Ok tt s2
    /\ calls (trace s2) = calls (trace s).
Proof.
  intros Hk Hl Ho.
  destruct (thenDo_pending A f g s kA c0 Hk Hl) as (s1 & Hs1 & _ & Hpend).
  rewrite Ho in Hpend. destruct (pending_cancelled _ _ _ _ _ _ Hpend) as (s2 & H).
  by exists s1, s2.
Qed.

Lemma cancel_before_turn_witness :
  tasks finished_example !! 0 = Some (mkCell (Some (VNull, VNum 5)) None None)
  /\ exists s1 s2,
       thenDo 0 (Some identity_factory) None finished_example = Ok 1 s1
       /\ cancel 1 (complete 0 (CallReject (VStr "late")) s1) = Some s2
       /\ outcome 1 s2 = Some (sentinel, VNull)
       /\ aborted (trace s2) = aborted (trace finished_example) ++ [1]
       /\ run_deferred (ComposeTick 0 VNull (VNum 5)) s2 = Ok tt s2
       /\ calls (trace s2) = calls (trace finished_example).
Proof.
  split; [reflexivity|].
  exact (cancel_before_turn 0 finished_example _ (Some identity_factory) None
           (CallReject (VStr "late")) VNull (VNum 5) eq_refl eq_refl eq_refl).
Defined.

(** X4. taskA cancelled by its holder, not through the composite task of
    [taskA.thenDo(f, g)]: the abort function of taskA runs if there is one,
    the listener queues the deferred function with ['cancelled'], and that
    function rejects the composite task with ['cancelled'] without calling
    [f] or [g]. *)
Theorem first_task_cancelled A s kA f g (a : option nat) :
  tasks s !! A = Some kA -> onFinish kA = None -> finished kA = None ->
  abort kA = UserAbort <$> a ->
  exists s1 s2 s',
    thenDo A f g s = Ok (length (tasks s)) s1
    /\ cancel A s1 = Some s2
    /\ outcome A s2 = Some (sentinel, VNull)
    /\ aborted (trace s2) = aborted (trace s) ++ match a with Some _ => [A] | None => [] end
    /\ queue s2 = queue s ++ [ComposeTick (length (envs s)) sentinel VNull]
    /\ run_deferred (ComposeTick (length (envs s)) sentinel VNull) s2 = Ok tt s'
    /\ outcome (length (tasks s)) s' = Some (sentinel, VNull)
    /\ calls (trace s') = calls (trace s).
Proof.
  intros Hk Hl Hf Ha.
  destruct (thenDo_running_pending A f g s kA Hk Hl Hf) as (s1 & Hs1 & Hp).
  destruct (Hp sentinel VNull) as [(He & HkC & Hq & Hc & Hab & _) Ho].
  pose proof (keeps_thenDo A f g s) as [_ K]. rewrite Hs1 in K.
  cbn [state_of] in K. destruct (K A kA Hk) as (k' & Hk' & Hf' & Ha').
  set (s1f := finish A sentinel VNull s1) in *.
  set (s2 := match a with Some _ => log (ObsAbort A) s1f | None => s1f end).
  assert (cancel A s1 = Some s2) as Hcancel.
  { rewrite cancel_unfold, Hk', Hf', Hf, Ha', Ha. unfold s2. by destruct a. }
  assert (tasks s2 = tasks s1f /\ envs s2 = envs s1f /\ queue s2 = queue s1f
          /\ calls (trace s2) = calls (trace s1f)) as (Et & Ee & Eq & Ec).
  { unfold s2. destruct a; [|done]. repeat split. by apply calls_log_other. }
  exists s1, s2. eexists. split; [done|]. split; [done|].
  split; [unfold outcome in *; by rewrite Et|].
  split.
  { unfold s2. destruct a; simpl.
    - unfold aborted in *. rewrite omap_app. simpl. by rewrite Hab.
    - by rewrite Hab, app_nil_r. }
  split; [by rewrite Eq|]. simpl.
  rewrite (compose_tick_cancelled _ sentinel VNull s2 _) by (by rewrite ?Ee).
  split; [done|]. split.
  - apply outcome_finish_running. rewrite Et. eauto.
  - unfold reject. by rewrite calls_finish, Ec.
Qed.

Lemma first_task_cancelled_witness :
  tasks running_example !! 0 = Some (mkCell None None (Some (UserAbort 7)))
  /\ exists s1 s2 s',
       thenDo 0 (Some onResolve_example) (Some onReject_example) running_example
       = Ok 1 s1
       /\ cancel 0 s1 = Some s2
       /\ outcome 0 s2 = Some (sentinel, VNull)
       /\ aborted (trace s2) = aborted (trace running_example) ++ [0]
       /\ queue s2 = queue running_example ++ [ComposeTick 0 sentinel VNull]
       /\ run_deferred (ComposeTick 0 sentinel VNull) s2 = Ok tt s'
       /\ outcome 1 s' = Some (sentinel, VNull)
       /\ calls (trace s') = calls (trace running_example).
Proof.
  split; [reflexivity|].
  exact (first_task_cancelled 0 running_example _ (Some onResolve_example)
           (Some onReject_example) (Some 7) eq_refl eq_refl eq_refl eq_refl).
Defined.

(** ** What every operation preserves *)

(** A property of the store that the elementary steps of the code preserve
    is preserved by every operation, and so by whatever a caller does. *)
Section Preserved.
Variable P : State -> Prop.
Hypothesis P_start : forall d s, P s -> P (state_of (start d s)).
Hypothesis P_finish : forall t err result s, P s -> P (finish t err result s).
Hypothesis P_setListener : forall t l s, P s -> P (state_of (setListener t l s)).
Hypothesis P_abort : forall t s k,
  tasks s !! t = Some k -> finished k = None ->
  P s -> P (log (ObsAbort t) (finish t sentinel VNull s)).
Hypothesis P_call : forall f v s, P s -> P (log (ObsCall f v) s).
Hypothesis P_env : forall c f s, P s -> P (upd_env c f s).
Hypothesis P_new_env : forall t f g s, P s -> P (state_of (new_env t f g s)).
Hypothesis P_tick : forall s c err result q,
  queue s = ComposeTick c err result :: q ->
  P s -> P (mkState (tasks s) (envs s) q (trace s)).
Hypothesis P_cleanup : forall s n q,
  queue s = Cleanup n :: q ->
  P s -> P (log (ObsCleanup n) (mkState (tasks s) (envs s) q (trace s))).

Local Abbreviation pres m := (forall s, P s -> P (state_of (m s))).

Lemma pres_bind {A B} (m : M A) (f : A -> M B) :
  pres m -> (forall a, pres (f a)) -> pres (m ≫= f).
Proof.
  intros Hm Hf s Hs. specialize (Hm s Hs). munfold.
  destruct (m s) as [a s'|e s']; [by apply Hf|done].
Qed.

Lemma pres_try_catch {A} (m : M A) (h : Val -> M A) :
  pres m -> (forall e, pres (h e)) -> pres (try_catch m h).
Proof.
  intros Hm Hh s Hs. specialize (Hm s Hs). unfold try_catch.
  destruct (m s) as [a s'|e s']; [done|by apply Hh].
Qed.

Lemma pres_lift (f : State -> State) : (forall s, P s -> P (f s)) -> pres (lift f).
Proof. intros Hf s Hs. by apply Hf. Qed.

Lemma pres_mret {A} (a : A) : pres (mret a : M A).
Proof. by intros s Hs. Qed.

Lemma pres_complete t c s : P s -> P (complete t c s).
Proof. destruct c; apply P_finish. Qed.

Lemma pres_completes t cs : forall s, P s -> P (completes t cs s).
Proof.
  induction cs as [|c cs IH]; intros s Hs; [done|].
  simpl. apply IH. by apply pres_complete.
Qed.

Lemma pres_cancel_fuel n : forall t s s', cancel_fuel n t s = Some s' -> P s -> P s'.
Proof.
  induction n as [|n IH]; intros t s s' H Hs; [done|].
  rewrite cancel_fuel_S in H.
  destruct (tasks s !! t) as [k|] eqn:Hk; [|by injection H as <-].
  destruct (finished k) eqn:Hf; [by injection H as <-|].
  destruct (abort k) as [[a|c]|]; simpl in H.
  - injection H as <-. by eapply P_abort.
  - assert (P (upd_env c set_cancelled
                 (log (ObsAbort t) (finish t sentinel VNull s)))) as Hs2
      by (apply P_env; by eapply P_abort).
    destruct (current c _); [by eapply IH|by injection H as <-].
  - injection H as <-. by apply P_finish.
Qed.

Lemma pres_cancel t s : P s -> P (default s (cancel t s)).
Proof.
  intros Hs. destruct (cancel t s) as [s'|] eqn:H; [|done].
  by eapply pres_cancel_fuel.
Qed.

Lemma pres_is_task t : pres (is_task t).
Proof. intros s Hs. unfold is_task. by destruct (tasks s !! t). Qed.

Lemma pres_compose t f g : pres (compose t f g).
Proof.
  unfold compose. apply pres_bind; [apply P_new_env|]. intros c.
  apply pres_bind; [apply P_start|]. intros composite.
  apply pres_bind; [apply P_setListener|]. intros _. apply pres_mret.
Qed.

Lemma pres_thenDo t f g : pres (thenDo t f g).
Proof.
  unfold thenDo. apply pres_bind; [apply pres_is_task|]. intros _.
  apply pres_compose.
Qed.

Lemma pres_finally t cleanup : pres (finally t cleanup).
Proof.
  unfold finally. apply pres_bind; [apply P_setListener|]. intros _.
  apply pres_mret.
Qed.

Lemma pres_eval e : pres (eval e).
Proof.
  induction e as [calls ending|t|e IH f g|e IH cleanup]; cbn [eval].
  - apply P_start.
  - apply pres_bind; [apply pres_is_task|]. intros _. apply pres_mret.
  - apply pres_bind; [apply IH|]. intros t. apply pres_thenDo.
  - apply pres_bind; [apply IH|]. intros t. apply pres_finally.
Qed.

Lemma pres_call_factory f v : pres (call_factory f v).
Proof.
  destruct f as [name body|t|t]; cbn [call_factory].
  - apply pres_bind; [apply pres_lift, P_call|]. intros _.
    destruct (body v) as [e|[ex|]]; [by intros s Hs|..|apply pres_mret].
    apply pres_bind; [apply pres_eval|]. intros t. apply pres_mret.
  - apply pres_bind; [apply pres_lift, P_finish|]. intros _. apply pres_mret.
  - apply pres_bind; [apply pres_lift, P_finish|]. intros _. apply pres_mret.
Qed.

Lemma pres_get_env {A} c (k : Env -> M A) : (forall e, pres (k e)) -> pres (get_env c ≫= k).
Proof.
  intros Hk s Hs. munfold. unfold get_env.
  destruct (envs s !! c) as [e|]; [by apply Hk|done].
Qed.

Lemma pres_attach c composite : pres (attach c composite).
Proof.
  unfold attach. apply pres_get_env. intros e.
  destruct (currentTask e) as [t|].
  - apply pres_bind; [apply pres_thenDo|]. intros _. apply pres_mret.
  - apply pres_lift, P_finish.
Qed.

Lemma pres_compose_tick c firstErr firstResult : pres (compose_tick c firstErr firstResult).
Proof.
  unfold compose_tick. apply pres_get_env. intros e.
  destruct (cancelled e || is_sentinel firstErr)%bool; [apply pres_lift, P_finish|].
  apply pres_bind.
  - apply pres_try_catch.
    + destruct (is_nullish firstErr).
      * destruct (onResolve e) as [f|].
        -- apply pres_bind; [apply pres_call_factory|]. intros r.
           apply pres_bind; [apply pres_lift, P_env|]. intros _. apply pres_mret.
        -- apply pres_bind; [apply pres_lift, P_finish|]. intros _. apply pres_mret.
      * destruct (onReject e) as [g|].
        -- apply pres_bind; [apply pres_call_factory|]. intros r.
           apply pres_bind; [apply pres_lift, P_env|]. intros _. apply pres_mret.
        -- apply pres_bind; [apply pres_lift, P_finish|]. intros _. apply pres_mret.
    + intros err. apply pres_bind; [apply pres_lift, P_finish|]. intros _.
      apply pres_mret.
  - intros [|]; [apply pres_attach|apply pres_mret].
Qed.

Lemma pres_turn : pres turn.
Proof.
  intros s Hs. unfold turn. destruct (queue s) as [|[c err result|n] q] eqn:Hq; [done|..].
  - apply pres_compose_tick. by eapply P_tick.
  - simpl. by apply P_cleanup.
Qed.

Lemma pres_act a s : P s -> P (run_act a s).
Proof.
  intros Hs. destruct a; simpl.
  - by apply P_start.
  - by apply pres_complete.
  - by apply pres_cancel.
  - by apply pres_thenDo.
  - by apply pres_finally.
  - by apply pres_turn.
Qed.

Lemma pres_acts acts : forall s, P s -> P (run_acts acts s).
Proof.
  induction acts as [|a acts IH]; intros s Hs; [done|].
  simpl. apply IH. by apply pres_act.
Qed.
End Preserved.

(** ** The cells of the tasks only fill up *)

Lemma cell_le_refl k : cell_le k k.
Proof. by repeat split. Qed.

Lemma cell_le_trans k1 k2 k3 : cell_le k1 k2 -> cell_le k2 k3 -> cell_le k1 k3.
Proof.
  intros (A1 & F1 & L1) (A2 & F2 & L2). repeat split; [congruence|auto..].
Qed.

Lemma start_appends d s :
  exists k, start d s
    = Ok (length (tasks s)) (mkState (tasks s ++ [k]) (envs s) (queue s) (trace s))
    /\ onFinish k = None.
Proof.
  destruct d as [calls ending|c]; [rewrite start_user|rewrite start_composite];
    by eexists.
Qed.

Lemma cell_finish t err result s t' k :
  tasks s !! t' = Some k ->
  exists k', tasks (finish t err result s) !! t' = Some k' /\ cell_le k k'.
Proof.
  intros Hk'. destruct (decide (t' = t)) as [->|Hne].
  - destruct (finished k) eqn:Hf.
    + rewrite finish_finished; [exists k; split; [done|apply cell_le_refl]|].
      unfold outcome. rewrite Hk'. simpl. by rewrite Hf.
    + rewrite (tasks_finish_running _ _ _ _ _ Hk' Hf).
      rewrite list_lookup_insert_eq by (by eapply lookup_lt_Some).
      eexists. split; [done|]. repeat split; simpl; [|done]. intros o. by rewrite Hf.
  - rewrite tasks_finish_other by done. exists k. split; [done|apply cell_le_refl].
Qed.

Lemma cell_setListener t l s t' k :
  tasks s !! t' = Some k ->
  exists k', tasks (state_of (setListener t l s)) !! t' = Some k' /\ cell_le k k'.
Proof.
  intros Hk'. unfold setListener.
  destruct (tasks s !! t) as [k0|] eqn:Hk0; [|exists k; split; [done|apply cell_le_refl]].
  destruct (onFinish k0) eqn:Hl0; [exists k; split; [done|apply cell_le_refl]|].
  cbn [state_of].
  assert (exists k', tasks (upd_task t (set_onFinish l) s) !! t' = Some k' /\ cell_le k k')
    as (k' & Hk2 & Hle).
  { simpl. destruct (decide (t = t')) as [->|Hne].
    - rewrite list_lookup_alter_eq, Hk'. eexists. split; [done|].
      assert (k0 = k) as -> by congruence.
      repeat split; simpl; [done..|]. intros l'. by rewrite Hl0.
    - rewrite list_lookup_alter_ne by done. exists k. split; [done|apply cell_le_refl]. }
  exists k'. split; [|done]. destruct (finished k0); [|done].
  by rewrite tasks_call_onFinish.
Qed.

(** X5. Whatever the caller does afterwards (starting tasks, calling the
    callbacks of any task, cancelling, attaching continuations and cleanups,
    letting the scheduler run), a task keeps its abort function, an outcome
    once recorded is never replaced, and a listener once set is never
    replaced. *)
Theorem cells_only_fill_up (acts : list Act) (s : State) (t : TaskId) (k : Cell) :
  tasks s !! t = Some k ->
  exists k', tasks (run_acts acts s) !! t = Some k' /\ cell_le k k'.
Proof.
  intros Hk.
  apply (pres_acts (fun s' => exists k', tasks s' !! t = Some k' /\ cell_le k k'));
    [..|by exists k; split; [|apply cell_le_refl]].
  - intros d s0 (k1 & Hk1 & Hle). destruct (start_appends d s0) as (k0 & -> & _).
    exists k1. split; [|done]. by apply lookup_app_l_Some.
  - intros t0 err result s0 (k1 & Hk1 & Hle).
    destruct (cell_finish t0 err result s0 t k1 Hk1) as (k2 & Hk2 & Hle2).
    exists k2. split; [done|by eapply cell_le_trans].
  - intros t0 l s0 (k1 & Hk1 & Hle).
    destruct (cell_setListener t0 l s0 t k1 Hk1) as (k2 & Hk2 & Hle2).
    exists k2. split; [done|by eapply cell_le_trans].
  - intros t0 s0 k0 _ _ (k1 & Hk1 & Hle).
    destruct (cell_finish t0 sentinel VNull s0 t k1 Hk1) as (k2 & Hk2 & Hle2).
    exists k2. split; [done|by eapply cell_le_trans].
  - done.
  - done.
  - done.
  - done.
  - done.
Qed.

Lemma cells_only_fill_up_witness :
  tasks finished_example !! 0 = Some (mkCell (Some (VNull, VNum 5)) None None)
  /\ exists k',
       tasks (run_acts [ActThenDo 0 (Some identity_factory) None;
                        ActComplete 0 (CallReject (VStr "late"));
                        ActCancel 0; ActTurn; ActTurn] finished_example) !! 0
       = Some k'
       /\ cell_le (mkCell (Some (VNull, VNum 5)) None None) k'.
Proof.
  split; [reflexivity|].
  exact (cells_only_fill_up
           [ActThenDo 0 (Some identity_factory) None;
            ActComplete 0 (CallReject (VStr "late")); ActCancel 0; ActTurn; ActTurn]
           finished_example 0 _ eq_refl).
Defined.

(** ** The listener hears the outcome, once *)

Lemma heard_log_other t o s :
  (forall t' err result, o <> ObsListener t' err result) ->
  heard t (trace (log o s)) = heard t (trace s).
Proof.
  intros H. simpl. rewrite heard_app. simpl.
  destruct o; try by rewrite app_nil_r. by destruct (H t0 err result).
Qed.

Lemma due_finish t0 err result s t :
  heard t (trace s) = due t s ->
  heard t (trace (finish t0 err result s)) = due t (finish t0 err result s).
Proof.
  intros H. destruct (tasks s !! t0) as [k|] eqn:Hk; [|by rewrite finish_no_task].
  destruct (finished k) eqn:Hf.
  { rewrite finish_finished; [done|]. unfold outcome. rewrite Hk. simpl. by rewrite Hf. }
  destruct (decide (t = t0)) as [->|Hne].
  - unfold due at 1. rewrite (tasks_finish_running _ _ _ _ _ Hk Hf).
    rewrite list_lookup_insert_eq by (by eapply lookup_lt_Some). simpl.
    unfold due in H. rewrite Hk, Hf in H.
    destruct (onFinish k) as [l|] eqn:Hl.
    + destruct (finish_heard t0 err result s k l Hk Hf Hl) as (_ & -> & _).
      by rewrite H.
    + rewrite (finish_running _ _ _ _ _ Hk Hf), Hl. simpl. by rewrite H.
  - rewrite heard_finish_other by done. rewrite H. unfold due.
    by rewrite tasks_finish_other.
Qed.

Lemma due_setListener t0 l s t :
  heard t (trace s) = due t s ->
  heard t (trace (state_of (setListener t0 l s))) = due t (state_of (setListener t0 l s)).
Proof.
  intros H. unfold setListener.
  destruct (tasks s !! t0) as [k|] eqn:Hk; [|done].
  destruct (onFinish k) eqn:Hl; [done|]. cbn [state_of].
  destruct (finished k) as [[err result]|] eqn:Hf.
  - unfold call_onFinish. simpl. rewrite list_lookup_alter_eq, Hk. simpl. rewrite Hf.
    rewrite trace_run_listener. unfold due. rewrite tasks_run_listener. simpl.
    rewrite heard_app, H. unfold due. simpl.
    destruct (decide (t0 = t)) as [->|Hne].
    + rewrite list_lookup_alter_eq, Hk. simpl. by rewrite Hl, Hf.
    + rewrite list_lookup_alter_ne by done. by rewrite app_nil_r.
  - simpl. rewrite H. unfold due. simpl.
    destruct (decide (t0 = t)) as [->|Hne].
    + rewrite list_lookup_alter_eq, Hk. simpl. by rewrite Hl, Hf.
    + by rewrite list_lookup_alter_ne.
Qed.

(** X6. At every moment of every run that starts with no task, the
    listener of a task has heard exactly what is due: the recorded outcome,
    once, if the task has finished and has a listener, and nothing
    otherwise.  So a listener is never called ahead of the outcome, never
    twice, and never with anything but the outcome. *)
Theorem listener_hears_what_is_due (acts : list Act) (t : TaskId) :
  heard t (trace (run_acts acts initial)) = due t (run_acts acts initial).
Proof.
  revert t.
  apply (pres_acts (fun s => forall t, heard t (trace s) = due t s)); [..|done].
  - intros d s H t. destruct (start_appends d s) as (k & -> & Hl). simpl.
    rewrite H. unfold due. simpl.
    destruct (tasks s !! t) as [k0|] eqn:Hk0.
    + by rewrite (lookup_app_l_Some _ _ _ _ Hk0).
    + apply lookup_ge_None in Hk0.
      destruct (decide (t = length (tasks s))) as [->|Hne].
      * rewrite list_lookup_middle by done. by rewrite Hl.
      * rewrite lookup_ge_None_2; [done|]. rewrite length_app. simpl. lia.
  - intros t0 err result s H t. by apply due_finish.
  - intros t0 l s H t. by apply due_setListener.
  - intros t0 s k _ _ H t. rewrite heard_log_other by done.
    change (due t (log (ObsAbort t0) (finish t0 sentinel VNull s)))
      with (due t (finish t0 sentinel VNull s)).
    by apply due_finish.
  - intros f v s H t. rewrite heard_log_other by done. apply H.
  - intros c f s H t. apply H.
  - intros t0 f g s H t. apply H.
  - intros s c err result q _ H t. apply H.
  - intros s n q _ H t. rewrite heard_log_other by done. apply H.
Qed.

(** ** Abort functions run once, for tasks cancelled while running *)

Lemma outcome_keeps s s' t o : keeps s s' -> outcome t s = Some o -> outcome t s' = Some o.
Proof.
  intros [_ K] Ho. apply outcome_Some in Ho as (k & Hk & Hf).
  destruct (K t k Hk) as (k' & Hk' & Hf' & _).
  apply outcome_Some. exists k'. split; [done|congruence].
Qed.

Lemma aborted_setListener t l s :
  aborted (trace (state_of (setListener t l s))) = aborted (trace s).
Proof.
  unfold setListener. destruct (tasks s !! t) as [k|] eqn:Hk; [|done].
  destruct (onFinish k); [done|]. cbn [state_of].
  destruct (finished k) as [[err result]|] eqn:Hf; [|done].
  unfold call_onFinish. simpl. rewrite list_lookup_alter_eq, Hk. simpl. rewrite Hf.
  rewrite trace_run_listener. simpl. apply aborted_snoc_listener.
Qed.

Lemma aborted_log_other o s :
  (forall t, o <> ObsAbort t) -> aborted (trace (log o s)) = aborted (trace s).
Proof.
  intros H. unfold aborted. simpl. rewrite omap_app. simpl.
  destruct o; try by rewrite app_nil_r. by destruct (H t).
Qed.

(** X7. At every moment of every run that starts with no task, no task has
    had its abort function invoked twice, and every task whose abort
    function was invoked has the outcome (['cancelled'], [null]): abort
    functions run only for cancellations that found the task running. *)
Theorem abort_runs_once (acts : list Act) :
  NoDup (aborted (trace (run_acts acts initial)))
  /\ forall t, t ∈ aborted (trace (run_acts acts initial)) ->
       outcome t (run_acts acts initial) = Some (sentinel, VNull).
Proof.
  apply (pres_acts (fun s => NoDup (aborted (trace s))
           /\ forall t, t ∈ aborted (trace s) -> outcome t s = Some (sentinel, VNull))).
  - intros d s [Hn Ho]. pose proof (keeps_start d s) as K.
    destruct (start_appends d s) as (k & E & _). rewrite E in *. simpl in *.
    split; [done|]. intros t Ht. by apply (outcome_keeps s), Ho.
  - intros t0 err result s [Hn Ho].
    rewrite (proj1 (envs_finish_trace t0 err result s)).
    split; [done|]. intros t Ht. by apply outcome_finish_fixed, Ho.
  - intros t0 l s [Hn Ho]. rewrite aborted_setListener.
    split; [done|]. intros t Ht.
    by apply (outcome_keeps s _ _ _ (keeps_setListener t0 l s)), Ho.
  - intros t0 s k Hk Hf [Hn Ho].
    assert (aborted (trace (log (ObsAbort t0) (finish t0 sentinel VNull s)))
            = aborted (trace s) ++ [t0]) as ->.
    { unfold aborted. simpl. rewrite omap_app. simpl. f_equal.
      apply (envs_finish_trace t0 sentinel VNull s). }
    assert (t0 ∉ aborted (trace s)) as Hnew.
    { intros Hin. apply Ho, outcome_Some in Hin as (k' & Hk' & Hf'). congruence. }
    split.
    + apply NoDup_app. split; [done|]. split; [|apply NoDup_singleton].
      intros x Hx ->%list_elem_of_singleton. done.
    + intros t [Ht| ->%list_elem_of_singleton]%elem_of_app.
      * by apply (outcome_finish_fixed t0 sentinel VNull s), Ho.
      * apply (outcome_finish_running t0 sentinel VNull s). eauto.
  - intros f v s [Hn Ho]. by rewrite aborted_log_other.
  - intros c f s H. apply H.
  - intros t0 f g s H. apply H.
  - intros s c err result q _ H. apply H.
  - intros s n q _ [Hn Ho]. by rewrite aborted_log_other.
  - split; [apply NoDup_nil_2|]. intros t Ht. by apply elem_of_nil in Ht.
Qed.

(** ** Cleanup functions run once per finished task *)

Lemma times_app n l1 l2 : times n (l1 ++ l2) = times n l1 + times n l2.
Proof. unfold times. by rewrite filter_app, length_app. Qed.

Lemma times_singleton n m : times n [m] = if decide (m = n) then 1 else 0.
Proof. unfold times. rewrite filter_cons. by destruct (decide (m = n)). Qed.

Lemma cleanup_runs_snoc n tr o :
  cleanup_runs n (tr ++ [o])
  = cleanup_runs n tr
    + match o with ObsCleanup m => if decide (m = n) then 1 else 0 | _ => 0 end.
Proof.
  unfold cleanup_runs. rewrite omap_app, times_app. f_equal.
  destruct o; try done. apply times_singleton.
Qed.

Lemma cleanup_queued_snoc n q d :
  cleanup_queued n (q ++ [d])
  = cleanup_queued n q
    + match d with Cleanup m => if decide (m = n) then 1 else 0 | _ => 0 end.
Proof.
  unfold cleanup_queued. rewrite omap_app, times_app. f_equal.
  destruct d; try done. apply times_singleton.
Qed.

Lemma cleanup_queued_cons n d q :
  cleanup_queued n (d :: q)
  = match d with Cleanup m => if decide (m = n) then 1 else 0 | _ => 0 end
    + cleanup_queued n q.
Proof.
  change (d :: q) with ([d] ++ q). unfold cleanup_queued.
  rewrite omap_app, times_app. f_equal. destruct d; try done. apply times_singleton.
Qed.

Lemma cleanups_owed_snoc n ks k :
  cleanups_owed n (ks ++ [k]) = cleanups_owed n ks + (if cleanup_owed n k then 1 else 0).
Proof.
  unfold cleanups_owed. rewrite filter_app, length_app, filter_cons. f_equal.
  destruct (cleanup_owed n k); by destruct (decide _).
Qed.

Lemma cleanups_owed_cons n k ks :
  cleanups_owed n (k :: ks) = (if cleanup_owed n k then 1 else 0) + cleanups_owed n ks.
Proof.
  unfold cleanups_owed. rewrite filter_cons.
  destruct (cleanup_owed n k); by destruct (decide _).
Qed.

Lemma cleanups_owed_alter n f : forall ks i k,
  ks !! i = Some k -> cleanup_owed n k = false ->
  cleanups_owed n (alter f i ks)
  = cleanups_owed n ks + (if cleanup_owed n (f k) then 1 else 0).
Proof.
  induction ks as [|k0 ks IH]; intros i k Hi Hk; [done|].
  destruct i as [|i]; simpl in Hi.
  - injection Hi as ->. change (alter f 0 (k :: ks)) with (f k :: ks).
    rewrite !cleanups_owed_cons, Hk. lia.
  - change (alter f (S i) (k0 :: ks)) with (k0 :: alter f i ks).
    rewrite !cleanups_owed_cons, (IH i k Hi Hk). lia.
Qed.

Lemma owed_listener n k l o :
  onFinish k = Some l -> finished k = Some o ->
  (if cleanup_owed n k then 1 else 0)
  = match l with
    | ComposeListener _ => 0
    | FinallyListener m => if decide (m = n) then 1 else 0
    end.
Proof.
  intros Hl Hf. unfold cleanup_owed. rewrite Hf, Hl. destruct l as [c|m]; [done|].
  destruct (Nat.eqb_spec m n); by destruct (decide (m = n)).
Qed.

(** The account of a cleanup function is balanced by [finish]. *)
Lemma balance_finish n t err result s :
  cleanup_runs n (trace s) + cleanup_queued n (queue s) = cleanups_owed n (tasks s) ->
  cleanup_runs n (trace (finish t err result s))
  + cleanup_queued n (queue (finish t err result s))
  = cleanups_owed n (tasks (finish t err result s)).
Proof.
  intros H. destruct (tasks s !! t) as [k|] eqn:Hk; [|by rewrite finish_no_task].
  destruct (finished k) eqn:Hf.
  { rewrite finish_finished; [done|]. unfold outcome. rewrite Hk. simpl. by rewrite Hf. }
  assert (cleanup_owed n k = false) as Hno by (unfold cleanup_owed; by rewrite Hf).
  rewrite (finish_running _ _ _ _ _ Hk Hf). cbn zeta.
  destruct (onFinish k) as [l|] eqn:Hl.
  - rewrite tasks_run_listener, trace_run_listener. simpl.
    rewrite (cleanups_owed_alter n _ _ _ k Hk Hno).
    rewrite (owed_listener n _ l (err, result)) by done.
    rewrite cleanup_runs_snoc. simpl.
    destruct l as [c|m]; simpl; rewrite cleanup_queued_snoc; simpl; lia.
  - simpl. rewrite (cleanups_owed_alter n _ _ _ k Hk Hno).
    unfold cleanup_owed. simpl. rewrite Hl. lia.
Qed.

Lemma balance_setListener n t l s :
  cleanup_runs n (trace s) + cleanup_queued n (queue s) = cleanups_owed n (tasks s) ->
  cleanup_runs n (trace (state_of (setListener t l s)))
  + cleanup_queued n (queue (state_of (setListener t l s)))
  = cleanups_owed n (tasks (state_of (setListener t l s))).
Proof.
  intros H. unfold setListener.
  destruct (tasks s !! t) as [k|] eqn:Hk; [|done].
  destruct (onFinish k) eqn:Hl; [done|]. cbn [state_of].
  assert (cleanup_owed n k = false) as Hno
    by (unfold cleanup_owed; rewrite Hl; by destruct (finished k)).
  destruct (finished k) as [[err result]|] eqn:Hf.
  - unfold call_onFinish. simpl. rewrite list_lookup_alter_eq, Hk. simpl. rewrite Hf.
    rewrite tasks_run_listener, trace_run_listener. simpl.
    rewrite (cleanups_owed_alter n _ _ _ k Hk Hno).
    rewrite (owed_listener n _ l (err, result)) by done.
    rewrite cleanup_runs_snoc. simpl.
    destruct l as [c|m]; simpl; rewrite cleanup_queued_snoc; simpl; lia.
  - simpl. rewrite (cleanups_owed_alter n _ _ _ k Hk Hno).
    unfold cleanup_owed. simpl. rewrite Hf. lia.
Qed.

(** X8. At every moment of every run that starts with no task, and for
    every cleanup function, its runs so far plus its entries still in the
    queue are as many as the finished tasks that [finally] gave it to: a
    cleanup is scheduled exactly once for each task, when the task is
    finished (by resolve, reject, throw or cancel), and never runs without
    having been scheduled. *)
Theorem cleanup_once_per_finished_task (acts : list Act) (n : nat) :
  cleanup_runs n (trace (run_acts acts initial))
  + cleanup_queued n (queue (run_acts acts initial))
  = cleanups_owed n (tasks (run_acts acts initial)).
Proof.
  revert n.
  apply (pres_acts (fun s => forall n,
           cleanup_runs n (trace s) + cleanup_queued n (queue s)
           = cleanups_owed n (tasks s))); [..|done].
  - intros d s H n. destruct (start_appends d s) as (k & -> & Hl). simpl.
    rewrite cleanups_owed_snoc, H. unfold cleanup_owed. rewrite Hl.
    destruct (finished k); lia.
  - intros t err result s H n. by apply balance_finish.
  - intros t l s H n. by apply balance_setListener.
  - intros t s k _ _ H n.
    change (cleanup_queued n (queue (log (ObsAbort t) (finish t sentinel VNull s))))
      with (cleanup_queued n (queue (finish t sentinel VNull s))).
    change (tasks (log (ObsAbort t) (finish t sentinel VNull s)))
      with (tasks (finish t sentinel VNull s)).
    simpl trace. rewrite cleanup_runs_snoc, Nat.add_0_r. by apply balance_finish.
  - intros f v s H n. simpl. rewrite cleanup_runs_snoc, Nat.add_0_r. apply H.
  - intros c f s H n. apply H.
  - intros t f g s H n. apply H.
  - intros s c err result q Hq H n. specialize (H n).
    rewrite Hq, cleanup_queued_cons in H. apply H.
  - intros s m q Hq H n. specialize (H n).
    rewrite Hq, cleanup_queued_cons in H. simpl.
    rewrite cleanup_runs_snoc. lia.
Qed.

(** ** The task that a factory returns *)

Lemma envs_setListener_stay t l s c :
  is_Some (envs s !! c) -> is_Some (envs (state_of (setListener t l s)) !! c).
Proof.
  intros H. unfold setListener. destruct (tasks s !! t) as [k|] eqn:Hk; [|done].
  destruct (onFinish k); [done|]. cbn [state_of].
  destruct (finished k) as [[err result]|] eqn:Hf; [|done].
  unfold call_onFinish. simpl. rewrite list_lookup_alter_eq, Hk. simpl. rewrite Hf.
  destruct l as [c'|n]; simpl; [|done].
  apply lookup_lt_is_Some. rewrite length_alter. by apply lookup_lt_is_Some.
Qed.

(** The environments of the compositions are never removed. *)
Lemma envs_eval_stay ex s c :
  is_Some (envs s !! c) -> is_Some (envs (state_of (eval ex s)) !! c).
Proof.
  apply (pres_eval (fun s => is_Some (envs s !! c))).
  - intros d s0 H. by destruct (start_appends d s0) as (k & -> & _).
  - intros t l s0 H. by apply envs_setListener_stay.
  - intros t f g s0 [e He]. simpl. exists e. by apply lookup_app_l_Some.
Qed.

(** The deferred function whose factory returns a task: the task becomes
    current and [thenDo] is called on it, outside the protected block. *)
Lemma pending_factory_task s0 s f g err r name body arg ex t s2 :
  tick_pending s0 s f g err r -> is_sentinel err = false ->
  chosen (mkEnv false None f g (length (tasks s0))) err r
  = (Some (UserFn name body), arg) ->
  body arg = Returns (Some ex) ->
  eval ex (log (ObsCall name arg) s) = Ok t s2 ->
  run_deferred (ComposeTick (length (envs s0)) err r) s
  = match thenDo t (Some (ResolveOf (length (tasks s0))))
            (Some (RejectOf (length (tasks s0))))
            (upd_env (length (envs s0)) (set_currentTask (Some t)) s2) with
    | Ok _ s3 => Ok tt s3
    | Threw e s3 => Threw e s3
    end.
Proof.
  intros (He & _) Hs Hch Hbody Heval. simpl.
  rewrite (compose_tick_factory _ _ _ _ _ He eq_refl Hs _ _ Hch).
  unfold call_factory. munfold. rewrite Hbody, Heval.
  unfold attach, get_env. munfold. cbn [envs upd_env].
  rewrite list_lookup_alter_eq.
  destruct (envs_eval_stay ex (log (ObsCall name arg) s) (length (envs s0)))
    as [e2 He2]; [by eexists|].
  rewrite Heval in He2. cbn [state_of] in He2. rewrite He2. simpl.
  by destruct (thenDo t _ _ _).
Qed.

(** X9. When the task that the factory returns already has a listener
    (the factory called [finally] or [thenDo] on it), the deferred function
    throws "thenDo/finally called more than once" out of the scheduler's
    turn, for [thenDo] is called on the task outside the protected block,
    and the composite task is left running, with that task as its
    current task. *)
Theorem factory_task_with_listener_throws
    A s kA f g cA errA rA name body arg ex s1 t s2 k :
  tasks s !! A = Some kA -> onFinish kA = None ->
  thenDo A f g s = Ok (length (tasks s)) s1 ->
  default (completion_pair cA) (finished kA) = (errA, rA) ->
  is_sentinel errA = false ->
  chosen (mkEnv false None f g (length (tasks s))) errA rA
  = (Some (UserFn name body), arg) ->
  body arg = Returns (Some ex) ->
  eval ex (log (ObsCall name arg) (complete A cA s1)) = Ok t s2 ->
  tasks s2 !! t = Some k -> onFinish k <> None ->
  exists s3,
    run_deferred (ComposeTick (length (envs s)) errA rA) (complete A cA s1)
    = Threw listener_twice s3
    /\ (exists kC, tasks s3 !! length (tasks s) = Some kC /\ finished kC = None)
    /\ current (length (envs s)) s3 = Some t.
Proof.
  intros Hk Hl Hs1 Ho Hs Hch Hbody Heval Hkt Hlt.
  destruct (thenDo_pending A f g s kA cA Hk Hl) as (s1' & Hs1' & _ & Hpend).
  assert (s1' = s1) as -> by congruence.
  rewrite Ho in Hpend. cbn [fst snd] in Hpend.
  eexists.
  rewrite (pending_factory_task _ _ _ _ _ _ _ _ _ _ _ _ Hpend Hs Hch Hbody Heval).
  set (s2' := upd_env (length (envs s)) (set_currentTask (Some t)) s2).
  rewrite (thenDo_twice t _ _ s2' k Hkt Hlt). split; [done|].
  destruct Hpend as (He & HkC & _).
  pose proof (keeps_eval ex (log (ObsCall name arg) (complete A cA s1))) as [_ K].
  rewrite Heval in K. cbn [state_of] in K.
  destruct (K _ _ HkC) as (kC & HkC2 & HfC & _).
  split.
  - exists kC. split; [|done]. simpl. by apply lookup_app_l_Some.
  - destruct (envs_eval_stay ex (log (ObsCall name arg) (complete A cA s1))
                (length (envs s))) as [e2 He2]; [by eexists|].
    rewrite Heval in He2. cbn [state_of] in He2.
    unfold current. simpl. rewrite lookup_app_l.
    + by rewrite list_lookup_alter_eq, He2.
    + rewrite length_alter. by eapply lookup_lt_Some.
Qed.

Lemma factory_task_with_listener_throws_witness :
  tasks finished_example !! 0 = Some (mkCell (Some (VNull, VNum 5)) None None)
  /\ exists s1 s2,
       thenDo 0 (Some finally_factory) None finished_example = Ok 1 s1
       /\ eval (TFinally (TStart [] (Returns None)) 3)
            (log (ObsCall 0 (VNum 5)) (complete 0 (CallResolve (VNum 9)) s1))
          = Ok 2 s2
       /\ tasks s2 !! 2 = Some (mkCell None (Some (FinallyListener 3)) None)
       /\ exists s3,
            run_deferred (ComposeTick 0 VNull (VNum 5))
              (complete 0 (CallResolve (VNum 9)) s1)
            = Threw listener_twice s3
            /\ (exists kC, tasks s3 !! 1 = Some kC /\ finished kC = None)
            /\ current 0 s3 = Some 2.
Proof.
  split; [reflexivity|].
  eexists. eexists. split; [reflexivity|]. split; [reflexivity|].
  split; [reflexivity|].
  refine (factory_task_with_listener_throws 0 finished_example _
            (Some finally_factory) None (CallResolve (VNum 9)) VNull (VNum 5)
            0 (fun _ => Returns (Some (TFinally (TStart [] (Returns None)) 3)))
            (VNum 5) (TFinally (TStart [] (Returns None)) 3) _ 2 _
            (mkCell None (Some (FinallyListener 3)) None)
            eq_refl eq_refl eq_refl eq_refl eq_refl eq_refl eq_refl eq_refl eq_refl _).
  simpl. discriminate.
Defined.

(** X10. The chain that [thenDo] makes, from end to end: taskA finishes,
    the deferred function calls the factory, which starts a sub-task; the
    sub-task finishes, during its construction or by a later call [c0] to
    its callbacks, with an error that is not ['cancelled']; the deferred
    function of the inner composition then gives the composite task the
    outcome of the sub-task, a null or undefined error counting as none. *)
Theorem subtask_outcome_reaches_the_composite
    A s kA f g cA errA rA name body arg calls ending c0 err r s1 :
  tasks s !! A = Some kA -> onFinish kA = None ->
  thenDo A f g s = Ok (length (tasks s)) s1 ->
  default (completion_pair cA) (finished kA) = (errA, rA) ->
  is_sentinel errA = false ->
  chosen (mkEnv false None f g (length (tasks s))) errA rA
  = (Some (UserFn name body), arg) ->
  body arg = Returns (Some (TStart calls ending)) ->
  default (completion_pair c0) (finished (started_cell calls ending)) = (err, r) ->
  is_sentinel err = false ->
  exists s3,
    run_deferred (ComposeTick (length (envs s)) errA rA) (complete A cA s1) = Ok tt s3
    /\ outcome (S (length (tasks s))) (complete (S (length (tasks s))) c0 s3)
       = Some (err, r)
    /\ outcome (length (tasks s))
         (state_of (run_deferred (ComposeTick (S (length (envs s))) err r)
                      (complete (S (length (tasks s))) c0 s3)))
       = Some (if is_nullish err then (VNull, r) else (err, VNull)).
Proof.
  intros Hk Hl Hs1 HoA HsA Hch Hbody Ho Hs.
  destruct (thenDo_pending A f g s kA cA Hk Hl) as (s1' & Hs1' & _ & Hpend).
  assert (s1' = s1) as -> by congruence.
  rewrite HoA in Hpend. cbn [fst snd] in Hpend.
  set (sA := complete A cA s1) in *.
  pose proof Hpend as (He & HkC & _ & _ & _ & Hlt & Hle).
  assert (eval (TStart calls ending) (log (ObsCall name arg) sA)
          = Ok (length (tasks sA))
               (mkState (tasks sA ++ [started_cell calls ending]) (envs sA) (queue sA)
                  (trace sA ++ [ObsCall name arg]))) as Heval
    by (cbn [eval]; by rewrite start_user).
  rewrite (pending_factory_task _ _ _ _ _ _ _ _ _ _ _ _ Hpend HsA Hch Hbody Heval).
  set (s2 := upd_env (length (envs s)) (set_currentTask (Some (length (tasks sA)))) _).
  destruct (thenDo_pending (length (tasks sA)) (Some (ResolveOf (length (tasks s))))
              (Some (RejectOf (length (tasks s)))) s2 (started_cell calls ending) c0)
    as (s3 & Hs3 & Hsub & Hpend2);
    [unfold s2; simpl; by apply list_lookup_middle|done|].
  rewrite Ho in Hsub, Hpend2. cbn [fst snd] in Hpend2.
  assert (length (tasks s2) = S (length (tasks sA))) as Hlt2
    by (unfold s2; simpl; rewrite length_app; simpl; lia).
  assert (length (envs s2) = length (envs sA)) as Hle2
    by (unfold s2; simpl; by rewrite length_alter).
  rewrite Hlt2 in Hs3. rewrite Hs3. rewrite Hlt in *.
  exists s3. split; [done|]. split; [done|].
  pose proof Hpend2 as (He2 & _). rewrite Hle2, Hle in He2.
  assert (exists kC, tasks (complete (S (length (tasks s))) c0 s3) !! length (tasks s)
                     = Some kC /\ finished kC = None) as Hrun.
  { pose proof (keeps_thenDo (S (length (tasks s))) (Some (ResolveOf (length (tasks s))))
                  (Some (RejectOf (length (tasks s)))) s2) as [_ K].
    rewrite Hs3 in K. cbn [state_of] in K.
    destruct (K (length (tasks s)) (mkCell None None (Some (CancelComposite (length (envs s))))))
      as (kC & HkC3 & HfC & _).
    { unfold s2. simpl. by apply lookup_app_l_Some. }
    exists kC. split; [|done].
    destruct c0; simpl; unfold resolve, reject; by rewrite tasks_finish_other by lia. }
  simpl. by apply (subtask_outcome_reaches_composite _ _ _ _ _ _ He2).
Qed.

Lemma subtask_outcome_reaches_the_composite_witness :
  tasks finished_example !! 0 = Some (mkCell (Some (VNull, VNum 5)) None None)
  /\ exists s1,
       thenDo 0 (Some successor_factory) None finished_example = Ok 1 s1
       /\ exists s3,
            run_deferred (ComposeTick 0 VNull (VNum 5))
              (complete 0 (CallResolve (VNum 9)) s1) = Ok tt s3
            /\ outcome 2 (complete 2 (CallReject (VStr "late")) s3)
               = Some (VNull, VNum 6)
            /\ outcome 1
                 (state_of (run_deferred (ComposeTick 1 VNull (VNum 6))
                              (complete 2 (CallReject (VStr "late")) s3)))
               = Some (VNull, VNum 6).
Proof.
  split; [reflexivity|]. eexists. split; [reflexivity|].
  exact (subtask_outcome_reaches_the_composite 0 finished_example _
           (Some successor_factory) None (CallResolve (VNum 9)) VNull (VNum 5)
           0 _ (VNum 5) [CallResolve (VNum 6)] (Returns None)
           (CallReject (VStr "late")) VNull (VNum 6) _
           eq_refl eq_refl eq_refl eq_refl eq_refl eq_refl eq_refl eq_refl eq_refl).
Defined.

(** ** Cancelling twice, and cancelling a chain *)

(** X11. [cancel()] is idempotent: on the store that a cancellation leaves,
    cancelling the same task again changes nothing; in particular no abort
    function runs for it a second time. *)
Theorem cancel_idempotent (t : TaskId) (s : State) :
  exists s', cancel t s = Some s' /\ cancel t s' = Some s'.
Proof.
  destruct (cancel_total t s) as [s' Hs']. exists s'. split; [done|].
  destruct (tasks s !! t) as [k|] eqn:Hk.
  - pose proof (cancel_cases t s k Hk) as H.
    destruct (finished k) eqn:Hf.
    + assert (s' = s) as -> by congruence. done.
    + destruct H as (_ & _ & s'' & Hs'' & Ho & _).
      assert (s'' = s') as -> by congruence.
      apply outcome_Some in Ho as (k' & Hk' & Hf').
      by rewrite cancel_unfold, Hk', Hf'.
  - rewrite cancel_unfold, Hk in Hs'. injection Hs' as <-.
    by rewrite cancel_unfold, Hk.
Qed.



(** ** finally *)

Lemma queue_finish_grows t err result s :
  exists rest, queue (finish t err result s) = queue s ++ rest.
Proof.
  destruct (tasks s !! t) as [k|] eqn:Hk;
    [|exists []; by rewrite finish_no_task, app_nil_r].
  destruct (finished k) eqn:Hf.
  { exists []. rewrite finish_finished; [by rewrite app_nil_r|].
    unfold outcome. rewrite Hk. simpl. by rewrite Hf. }
  destruct (onFinish k) as [l|] eqn:Hl.
  - destruct (finish_heard t err result s k l Hk Hf Hl) as (_ & _ & ->). by eexists.
  - rewrite (finish_running _ _ _ _ _ Hk Hf), Hl. exists []. simpl. by rewrite app_nil_r.
Qed.

Lemma queue_cancel_grows t s s' :
  cancel t s = Some s' -> exists rest, queue s' = queue s ++ rest.
Proof.
  apply (cancel_preserves (fun s s' => exists rest, queue s' = queue s ++ rest)).
  - intros s1. exists []. by rewrite app_nil_r.
  - intros s1 s2 s3 [r1 H1] [r2 H2]. exists (r1 ++ r2). by rewrite H2, H1, app_assoc.
  - intros. apply queue_finish_grows.
  - intros t1 s1. exists []. simpl. by rewrite app_nil_r.
  - intros c s1. exists []. simpl. by rewrite app_nil_r.
Qed.

Lemma cleanup_runs_finish n t err result s :
  cleanup_runs n (trace (finish t err result s)) = cleanup_runs n (trace s).
Proof.
  destruct (tasks s !! t) as [k|] eqn:Hk; [|by rewrite finish_no_task].
  destruct (finished k) eqn:Hf.
  { rewrite finish_finished; [done|]. unfold outcome. rewrite Hk. simpl. by rewrite Hf. }
  rewrite (finish_running _ _ _ _ _ Hk Hf). cbn zeta.
  destruct (onFinish k) as [l|]; [|done].
  rewrite trace_run_listener. simpl. rewrite cleanup_runs_snoc. simpl. lia.
Qed.

(** X13. [task.finally(cleanup)] on a task without a listener returns the
    task itself and never runs the cleanup inline.  If the task has
    finished, the cleanup goes to the back of the queue at once; if it
    runs, the queue is unchanged and the cleanup goes to the back of the
    queue when the task is resolved, rejected or cancelled, before any
    abort function runs.  The cleanup runs when the scheduler serves that
    entry. *)
Theorem finally_defers_cleanup (t : TaskId) (s : State) (k : Cell) (cleanup : nat) :
  tasks s !! t = Some k -> onFinish k = None ->
  exists s1,
    finally t cleanup s = Ok t s1
    /\ cleanup_runs cleanup (trace s1) = cleanup_runs cleanup (trace s)
    /\ aborted (trace s1) = aborted (trace s) /\ calls (trace s1) = calls (trace s)
    /\ match finished k with
       | Some _ => queue s1 = queue s ++ [Cleanup cleanup]
       | None =>
           queue s1 = queue s
           /\ (forall c, queue (complete t c s1) = queue s ++ [Cleanup cleanup]
                 /\ cleanup_runs cleanup (trace (complete t c s1))
                    = cleanup_runs cleanup (trace s))
           /\ exists s2 rest,
                cancel t s1 = Some s2
                /\ queue s2 = queue s ++ Cleanup cleanup :: rest
       end
    /\ forall s', cleanup_runs cleanup (trace (state_of (run_deferred (Cleanup cleanup) s')))
                  = S (cleanup_runs cleanup (trace s')).
Proof.
  intros Hk Hl. unfold finally. munfold.
  assert (forall s', cleanup_runs cleanup
            (trace (state_of (run_deferred (Cleanup cleanup) s')))
          = S (cleanup_runs cleanup (trace s'))) as Hrun.
  { intros s'. simpl. rewrite cleanup_runs_snoc. rewrite decide_True by done. lia. }
  destruct (finished k) as [[err result]|] eqn:Hf.
  - rewrite (setListener_finished _ _ _ _ _ _ Hk Hl Hf). eexists. split; [done|].
    simpl. rewrite cleanup_runs_snoc, calls_snoc_listener, aborted_snoc_listener.
    simpl. repeat split; [lia|done].
  - rewrite (setListener_running _ _ _ _ Hk Hl Hf). eexists. split; [done|].
    set (s1 := upd_task t (set_onFinish (FinallyListener cleanup)) s).
    assert (tasks s1 !! t = Some (set_onFinish (FinallyListener cleanup) k)) as Hk1
      by (unfold s1; simpl; by rewrite list_lookup_alter_eq, Hk).
    do 3 (split; [done|]). split; [|done]. split; [done|]. split.
    + intros c. split.
      * destruct c as [v|e]; simpl; unfold resolve, reject.
        -- by destruct (finish_heard t VNull v s1 _ _ Hk1 Hf eq_refl) as (_ & _ & ->).
        -- by destruct (finish_heard t e VNull s1 _ _ Hk1 Hf eq_refl) as (_ & _ & ->).
      * destruct c; simpl; unfold resolve, reject; by rewrite cleanup_runs_finish.
    + destruct (cancel_total t s1) as [s2 Hs2]. exists s2.
      pose proof Hs2 as Hs2'. rewrite cancel_unfold, Hk1 in Hs2'. simpl in Hs2'.
      rewrite Hf in Hs2'.
      destruct (finish_heard t sentinel VNull s1 _ _ Hk1 Hf eq_refl) as (_ & _ & Hq).
      change (queue s1) with (queue s) in Hq.
      destruct (abort k) as [[a|c]|]; simpl in Hs2'.
      * injection Hs2' as <-. exists []. done.
      * destruct (current c _) as [t'|].
        -- destruct (queue_cancel_grows _ _ _ Hs2') as [rest Hr].
           exists rest. rewrite Hr. simpl. by rewrite Hq, <- app_assoc.
        -- injection Hs2' as <-. exists []. done.
      * injection Hs2' as <-. exists []. done.
Qed.

Lemma finally_defers_cleanup_witness :
  (tasks finished_example !! 0 = Some (mkCell (Some (VNull, VNum 5)) None None)
   /\ exists s1,
        finally 0 9 finished_example = Ok 0 s1
        /\ cleanup_runs 9 (trace s1) = cleanup_runs 9 (trace finished_example)
        /\ queue s1 = queue finished_example ++ [Cleanup 9])
  /\ (tasks running_example !! 0 = Some (mkCell None None (Some (UserAbort 7)))
      /\ exists s1,
           finally 0 9 running_example = Ok 0 s1
           /\ queue s1 = queue running_example
           /\ (forall c, queue (complete 0 c s1) = queue running_example ++ [Cleanup 9]
                 /\ cleanup_runs 9 (trace (complete 0 c s1))
                    = cleanup_runs 9 (trace running_example))
           /\ exists s2 rest,
                cancel 0 s1 = Some s2
                /\ queue s2 = queue running_example ++ Cleanup 9 :: rest).
Proof.
  split; (split; [reflexivity|]).
  - destruct (finally_defers_cleanup 0 finished_example _ 9 eq_refl eq_refl)
      as (s1 & H1 & H2 & _ & _ & H3 & _).
    exists s1. split; [exact H1|]. split; [exact H2|exact H3].
  - destruct (finally_defers_cleanup 0 running_example _ 9 eq_refl eq_refl)
      as (s1 & H1 & _ & _ & _ & H2 & _).
    exists s1. split; [exact H1|exact H2].
Defined.

(** ** Attaching a continuation *)

(** X14. [thenDo] and [finally] succeed on a task exactly when it has no
    listener yet, whatever its state (running, finished or cancelled).  The
    composite task that [thenDo] then returns is a new task, running and
    without a listener, also when the first task had finished long before:
    a composite task never finishes inside [thenDo]. *)
Theorem continuation_attaches_once (t : TaskId) (s : State) (k : Cell) f g cleanup :
  tasks s !! t = Some k ->
  ((exists s', thenDo t f g s = Ok (length (tasks s)) s') <-> onFinish k = None)
  /\ ((exists s', finally t cleanup s = Ok t s') <-> onFinish k = None)
  /\ (forall s', thenDo t f g s = Ok (length (tasks s)) s' ->
        tasks s' !! length (tasks s)
        = Some (mkCell None None (Some (CancelComposite (length (envs s)))))
        /\ length (tasks s') = S (length (tasks s))
        /\ forall t' o, outcome t' s = Some o -> outcome t' s' = Some o).
Proof.
  intros Hk. pose proof (lookup_lt_Some _ _ _ Hk) as Hlt.
  split; [|split].
  - split.
    + intros [s' H]. destruct (onFinish k) eqn:Hl; [|done].
      rewrite (thenDo_twice t f g s k Hk) in H; [done|by rewrite Hl].
    + intros Hl. rewrite (thenDo_fresh t f g s k Hk Hl). by eexists.
  - unfold finally. munfold. split.
    + intros [s' H]. destruct (onFinish k) eqn:Hl; [|done].
      rewrite (setListener_twice t _ s k Hk) in H; [done|by rewrite Hl].
    + intros Hl. destruct (finished k) as [[err result]|] eqn:Hf.
      * rewrite (setListener_finished _ _ _ _ _ _ Hk Hl Hf). by eexists.
      * rewrite (setListener_running _ _ _ _ Hk Hl Hf). by eexists.
  - intros s' H. destruct (onFinish k) eqn:Hl.
    { rewrite (thenDo_twice t f g s k Hk) in H; [done|by rewrite Hl]. }
    pose proof (keeps_thenDo t f g s) as K. rewrite H in K. cbn [state_of] in K.
    rewrite (thenDo_fresh t f g s k Hk Hl) in H. injection H as <-.
    split; [|split].
    + destruct (finished k) as [[err result]|]; cbn zeta;
        rewrite ?tasks_run_listener; simpl;
        rewrite list_lookup_alter_ne by lia; by apply list_lookup_middle.
    + destruct (finished k) as [[err result]|]; cbn zeta;
        rewrite ?tasks_run_listener; simpl;
        rewrite length_alter, length_app; simpl; lia.
    + intros t' o Ho. by apply (outcome_keeps s).
Qed.

Lemma continuation_attaches_once_witness :
  tasks finished_example !! 0 = Some (mkCell (Some (VNull, VNum 5)) None None)
  /\ ((exists s', thenDo 0 (Some identity_factory) None finished_example = Ok 1 s')
      <-> @None Listener = None)
  /\ ((exists s', finally 0 9 finished_example = Ok 0 s') <-> @None Listener = None)
  /\ (forall s', thenDo 0 (Some identity_factory) None finished_example = Ok 1 s' ->
        tasks s' !! 1 = Some (mkCell None None (Some (CancelComposite 0)))
        /\ length (tasks s') = 2
        /\ forall t' o, outcome t' finished_example = Some o -> outcome t' s' = Some o).
Proof.
  split; [reflexivity|].
  exact (continuation_attaches_once 0 finished_example _ (Some identity_factory) None 9
           eq_refl).
Defined.
